(** * Conversational UI assembly: registry, intent mapper, layout and assembly engine

    A shallow embedding of the TypeScript sources
    - [examples/assembly/ComponentRegistry.ts]
    - [examples/intent/IntentAnalyzer.ts] (class [IntentMapper])
    - [examples/assembly/AssemblyEngine.ts] (classes [AssemblyEngine], [LayoutEngine])

    Conventions of the embedding.
    - A JavaScript [number] is an integer ([Z]) where the code only stores
      indices and timestamps, and a rational ([Q]) elsewhere. Where the code
      only stores or compares a decimal (durations, confidence thresholds)
      the rational is the decimal as written. Where the code multiplies
      (animation delays, the confidence rules of the analyzer) the rational
      is the exact value of a binary64 double and every product is rounded
      to the nearest double, ties to even ([Double]).
    - A JavaScript object used as a record of named properties, and a
      JavaScript [Map], are association lists kept in insertion order, the
      order [Object.keys], [Map.prototype.values] and [forEach] observe.
    - The registry's two [Map]s are finite maps ([gmap]): the properties
      below read them by key, and [getComponentNames], the one reader of
      their insertion order, is left out.
    - [Date.now()] and [Math.random()] are read from an oracle.
    - Animation promises are external; the embedding covers the runs in which
      every scheduled animation resolves. *)

From Stdlib Require Import QArith Qminmax Qpower Qround Qabs Lqa Ascii.
From Stdlib Require Import PrimFloat FloatOps SpecFloat.
From stdpp Require Import gmap strings list fin_maps pretty.

#[local] Set Warnings "-register-all,-inexact-float".
Local Open Scope string_scope.

(* ===================================================================== *)
(** ** JavaScript values, objects and insertion-ordered maps *)
(* ===================================================================== *)

Module Js.

(** The values that travel in [Record<string, any>] property bags. *)
Inductive JsVal : Type :=
| VUndefined
| VBool (b : bool)
| VNum (q : Q)
| VStr (s : string)
| VArr (items : list JsVal)
| VObj (fields : list (string * JsVal)).

(** ToBoolean, as [if (x)] and [Array.prototype.filter] apply it. *)
Definition truthy (v : JsVal) : bool :=
  match v with
  | VUndefined => false
  | VBool b => b
  | VNum q => negb (Qeq_bool q 0)
  | VStr s => negb (String.eqb s EmptyString)
  | VArr _ => true
  | VObj _ => true
  end.

(** [x === "literal"] for a string literal on the right. *)
Definition str_eq (v : JsVal) (lit : string) : bool :=
  match v with
  | VStr s => String.eqb s lit
  | _ => false
  end.

(** [a > b] on numbers. *)
Definition num_gt (a b : Q) : bool := negb (Qle_bool a b).

Section OrderedMap.
Context {V : Type}.

(** [m.get(k)] / [o.k]: the entry stored under [k], if any. *)
Fixpoint get (k : string) (m : list (string * V)) : option V :=
  match m with
  | [] => None
  | (k', v) :: rest => if String.eqb k k' then Some v else get k rest
  end.

(** [m.has(k)]. *)
Definition has (k : string) (m : list (string * V)) : bool :=
  match get k m with Some _ => true | None => false end.

(** [m.set(k, v)] / [o.k = v]: an existing key keeps its place, a new key
    goes last. *)
Fixpoint set (k : string) (v : V) (m : list (string * V)) : list (string * V) :=
  match m with
  | [] => [(k, v)]
  | (k', v') :: rest =>
      if String.eqb k k' then (k', v) :: rest else (k', v') :: set k v rest
  end.

(** [m.delete(k)]: no entry under [k] is left. *)
Fixpoint delete (k : string) (m : list (string * V)) : list (string * V) :=
  match m with
  | [] => []
  | (k', v') :: rest =>
      if String.eqb k k' then delete k rest else (k', v') :: delete k rest
  end.

(** [const c = m.get(k); if (c) { mutate c }]: the object stored under [k]
    is changed in place; nothing happens when [k] is absent. *)
Fixpoint adjust (f : V -> V) (k : string) (m : list (string * V)) : list (string * V) :=
  match m with
  | [] => []
  | (k', v') :: rest =>
      if String.eqb k k' then (k', f v') :: rest else (k', v') :: adjust f k rest
  end.

(** [Array.from(m.keys())] and [Array.from(m.values())]. *)
Definition keys (m : list (string * V)) : list string := m.*1.
Definition values (m : list (string * V)) : list V := m.*2.

(** [{...a, ...b}] and [Object.assign(a, b)]: the own properties of [b]
    are written over [a], in [b]'s order. *)
Definition assign (a b : list (string * V)) : list (string * V) :=
  fold_left (fun acc kv => set kv.1 kv.2 acc) b a.

End OrderedMap.

(** A property bag. *)
Definition Obj : Type := list (string * JsVal).

End Js.

(* ===================================================================== *)
(** ** JavaScript numbers: binary64 arithmetic *)
(* ===================================================================== *)

(** A JavaScript number is an IEEE 754 binary64 value. A finite double is
    carried as the rational it denotes. A decimal literal of the source
    denotes the double nearest to it, and a product or sum is the exact
    rational result rounded to the nearest double, ties to the even
    significand. Not-a-number and the infinities are left out: the code
    embedded here never divides, and the one number it reads from outside,
    the parsed confidence, is clamped into [0, 1] before it is multiplied
    (a literal beyond the largest double rounds here to a large finite
    value, which the clamp sends to 1 as it sends [Infinity]). *)
Module Double.
Local Open Scope Q_scope.

Definition pow2 (e : Z) : Q := 2 ^ e.

(** The nearest integer, ties to even. *)
Definition rne (q : Q) : Z :=
  let f := Qfloor q in
  match Qcompare (q - inject_Z f) (1 # 2) with
  | Lt => f
  | Eq => if Z.even f then f else (f + 1)%Z
  | Gt => (f + 1)%Z
  end.

(** [floor (log2 x)] of a positive rational. *)
Definition ilog2 (x : Q) : Z :=
  let k := (Z.log2 (Qnum x) - Z.log2 (Zpos (Qden x)))%Z in
  if Qle_bool (pow2 k) x then k else (k - 1)%Z.

(** The exponent of the unit in the last place of the doubles around a
    positive [x]: 53 significant bits, and no exponent below that of the
    subnormal doubles. *)
Definition ulp_exp (x : Q) : Z := Z.max (ilog2 x - 52) (-1074).

Definition round_pos (x : Q) : Q :=
  let e := ulp_exp x in
  inject_Z (rne (x / pow2 e)) * pow2 e.

(** The double nearest to [x], in lowest terms. *)
Definition round (x : Q) : Q :=
  let x := Qred x in
  match Qcompare x 0 with
  | Eq => 0
  | Gt => Qred (round_pos x)
  | Lt => Qred (- round_pos (- x))
  end.

(** A decimal literal of the source. *)
Definition lit (q : Q) : Q := round q.

(** [a * b] and [a + b] on doubles. *)
Definition mul (a b : Q) : Q := round (a * b).
Definition add (a b : Q) : Q := round (a + b).
Definition sub (a b : Q) : Q := round (a - b).

(** An array length or index: an integer below 2^32, which is a double. *)
Definition of_nat (n : nat) : Q := inject_Z (Z.of_nat n).

(** The rational a primitive binary64 value of the kernel denotes;
    [None] for not-a-number and the infinities. *)
Definition of_float (f : float) : option Q :=
  match Prim2SF f with
  | S754_zero _ => Some 0
  | S754_finite s m e =>
      Some (Qred ((if s then -1 else 1) * inject_Z (Zpos m) * pow2 e))
  | _ => None
  end.

#[global] Arguments round : simpl never.
#[global] Arguments lit : simpl never.
#[global] Arguments mul : simpl never.
#[global] Arguments add : simpl never.
#[global] Arguments sub : simpl never.

End Double.

(* ===================================================================== *)
(** ** ComponentRegistry.ts *)
(* ===================================================================== *)

Module ComponentRegistry.

(** [React.ComponentType<any>]: an opaque renderable capability. *)
Inductive ComponentType : Type :=
| ReactComponent (displayName : string).

Inductive Category : Type := display | input | layout | feedback.

Record ComponentMetadata : Type := {
  category : Category;
  description : string;
  requiredProps : option (list string);
  optionalProps : option (list string);
}.

(** The two private maps of the class. *)
Record t : Type := {
  components : gmap string ComponentType;
  metadata : gmap string ComponentMetadata;
}.

(** The registry a fresh [new ComponentRegistry()] holds. *)
Definition empty : t := {| components := ∅; metadata := ∅ |}.

(** [register(name, component, metadata?)]: the capability is always
    written; the metadata map is written only under [if (metadata)]. *)
Definition register (name : string) (component : ComponentType)
    (md : option ComponentMetadata) (r : t) : t :=
  {| components := <[name := component]> (components r);
     metadata := match md with
                 | Some m => <[name := m]> (metadata r)
                 | None => metadata r
                 end |}.

Definition get (name : string) (r : t) : option ComponentType :=
  components r !! name.

Definition getMetadata (name : string) (r : t) : option ComponentMetadata :=
  metadata r !! name.

Definition has (name : string) (r : t) : bool :=
  bool_decide (is_Some (components r !! name)).

(** *** The static intent-to-component mapping of the registry class *)

Record Intent : Type := {
  type : string;
  confidence : Q;
  entities : option Js.Obj;
  context : option Js.Obj;
}.

Record InstancePosition : Type := {
  area : option string;
  order : Z;
}.

Record ComponentInstance : Type := {
  id : string;
  ctype : string;
  props : Js.Obj;
  position : InstancePosition;
  animationDelay : option Q;
}.

Record AnimationConfig : Type := {
  enter : string;
  exit : string;
  duration : Q;
  stagger : option Q;
  ease : option (list Q);
}.

Inductive Priority : Type := high | normal | low.

Record ComponentManifest : Type := {
  action : string;
  manifest_components : list ComponentInstance;
  manifest_layout : string;
  animations : AnimationConfig;
  priority : option Priority;
}.

Record IntentConfig : Type := {
  config_components : list string;
  config_layout : string;
  minConfidence : Q;
  contextual : option (list (string * list string));
}.

(** [getIntentMapping()]: the own properties of the object it returns. *)
Definition getIntentMapping : list (string * IntentConfig) :=
  [ ("greeting",
     {| config_components := ["ConversationPanel"];
        config_layout := "centered"; minConfidence := 5 # 10;
        contextual := None |});
    ("product_browse",
     {| config_components := ["ProductGrid"; "FilterPanel"];
        config_layout := "two-column"; minConfidence := 7 # 10;
        contextual := Some
          [("with_preferences", ["PersonalizedRecommendations"]);
           ("luxury_focus", ["BrandStoryPanel"])] |});
    ("product_detail",
     {| config_components := ["DetailView"; "MediaCarousel"; "CraftsmanshipStory"];
        config_layout := "full-width"; minConfidence := 8 # 10;
        contextual := None |});
    ("style_advice",
     {| config_components := ["StyleGuide"; "OutfitBuilder"; "ConversationPanel"];
        config_layout := "three-panel"; minConfidence := 75 # 100;
        contextual := None |});
    ("store_visit",
     {| config_components := ["StoreLocator"; "AppointmentScheduler"; "VirtualTour"];
        config_layout := "split-view"; minConfidence := 8 # 10;
        contextual := None |}) ].

(** The property names every object literal inherits from
    [Object.prototype]. Under such a name [mapping[intent.type]] is not
    [undefined] but a function (or the prototype itself), which has no
    [components]. *)
Definition inheritedNames : list string :=
  ["constructor"; "__defineGetter__"; "__defineSetter__"; "hasOwnProperty";
   "__lookupGetter__"; "__lookupSetter__"; "isPrototypeOf";
   "propertyIsEnumerable"; "toString"; "valueOf"; "__proto__";
   "toLocaleString"].

Definition isInherited (name : string) : bool :=
  existsb (String.eqb name) inheritedNames.

(** [o?.k]: [undefined] when the bag or the key is missing. *)
Definition opt_prop (k : string) (o : option Js.Obj) : Js.JsVal :=
  match o with
  | Some bag => default Js.VUndefined (Js.get k bag)
  | None => Js.VUndefined
  end.

(** [a || b]. *)
Definition js_or (a b : Js.JsVal) : Js.JsVal :=
  if Js.truthy a then a else b.

(** [getPropsForComponent]: three component names have a generator, every
    other name gets the empty bag. *)
Definition getPropsForComponent (componentName : string) (intent : Intent)
    : Js.Obj :=
  if String.eqb componentName "ProductGrid" then
    [("filters", js_or (opt_prop "filters" (entities intent)) (Js.VObj []));
     ("sortBy", js_or (opt_prop "sortPreference" (entities intent))
                      (Js.VStr "featured"));
     ("itemsPerPage", Js.VNum 12)]
  else if String.eqb componentName "FilterPanel" then
    [("availableFilters",
      Js.VArr [Js.VStr "category"; Js.VStr "color"; Js.VStr "size";
               Js.VStr "price"]);
     ("activeFilters", js_or (opt_prop "filters" (entities intent)) (Js.VObj []));
     ("position", Js.VStr "sidebar")]
  else if String.eqb componentName "DetailView" then
    [("productId", opt_prop "productId" (entities intent));
     ("showCraftsmanship", Js.VBool true);
     ("enable360View", Js.VBool true)]
  else [].

(** One [components.push] of the base loop: [index] is the position in
    [config.components]; the clock is read once per push, so its reading
    is numbered by the length of [components]. *)
Definition push_base (clock : nat -> Z) (intent : Intent)
    (components : list ComponentInstance) (index : nat) (componentName : string)
    : list ComponentInstance :=
  components ++
  [ {| id := componentName +:+ "-" +:+ pretty (clock (length components))
             +:+ "-" +:+ pretty index;
       ctype := componentName;
       props := getPropsForComponent componentName intent;
       position := {| area := None; order := Z.of_nat index |};
       animationDelay :=
         Some (Double.mul (Double.of_nat index) (Double.lit (1 # 10))) |} ].

(** One [components.push] of a contextual loop: order and delay add the
    current length of [components] to the index in the contextual list. *)
Definition push_contextual (clock : nat -> Z) (intent : Intent)
    (components : list ComponentInstance) (index : nat) (componentName : string)
    : list ComponentInstance :=
  components ++
  [ {| id := componentName +:+ "-" +:+ pretty (clock (length components))
             +:+ "-ctx-" +:+ pretty index;
       ctype := componentName;
       props := getPropsForComponent componentName intent;
       position := {| area := None;
                      order := Z.of_nat (length components + index) |};
       animationDelay :=
         Some (Double.mul (Double.of_nat (length components + index))
                          (Double.lit (1 # 10))) |} ].

(** [list.forEach((x, index) => ...)] threading the array being built. *)
Fixpoint forEach_indexed {A B} (f : B -> nat -> A -> B) (index : nat)
    (l : list A) (s : B) : B :=
  match l with
  | [] => s
  | x :: rest => forEach_indexed f (S index) rest (f s index x)
  end.

Definition selectComponentsForIntent (clock : nat -> Z) (intent : Intent)
    (config : IntentConfig) : list ComponentInstance :=
  let components :=
    forEach_indexed (push_base clock intent) 0 (config_components config) [] in
  match contextual config, context intent with
  | Some entries, Some ctx =>
      fold_left
        (fun components (entry : string * list string) =>
           if Js.truthy (default Js.VUndefined (Js.get entry.1 ctx))
           then forEach_indexed (push_contextual clock intent) 0 entry.2 components
           else components)
        entries components
  | _, _ => components
  end.

Definition determineLayout (components : list ComponentInstance) : string :=
  let componentCount := length components in
  let hasFilters := existsb (fun c => String.eqb (ctype c) "FilterPanel") components in
  let hasDetail := existsb (fun c => String.eqb (ctype c) "DetailView") components in
  if hasDetail then "full-width"
  else if hasFilters && (1 <? componentCount)%nat then "two-column"
  else if (componentCount =? 1)%nat then "centered"
  else if (3 <? componentCount)%nat then "grid"
  else "default".

Definition getAnimationConfig (confidence : Q) : AnimationConfig :=
  {| enter := if Js.num_gt confidence (8 # 10) then "fadeInUp" else "fadeIn";
     exit := "fadeOut";
     duration := if Js.num_gt confidence (8 # 10) then 5 # 10 else 3 # 10;
     stagger := Some (1 # 10);
     ease := Some [25 # 100; 1 # 10; 25 # 100; 1]%Q |}.

Definition getDefaultManifest (clock : nat -> Z) : ComponentManifest :=
  {| action := "add_components";
     manifest_components :=
       [ {| id := "conversation-" +:+ pretty (clock 0%nat);
            ctype := "ConversationPanel";
            props := [("suggestions",
                       Js.VArr [Js.VStr "Show me evening wear";
                                Js.VStr "I need an outfit for a gallery opening";
                                Js.VStr "What's new this season?"])];
            position := {| area := None; order := 0 |};
            animationDelay := Some 0%Q |} ];
     manifest_layout := "centered";
     animations := {| enter := "fadeIn"; exit := "fadeOut";
                      duration := 3 # 10; stagger := None; ease := None |};
     priority := None |}.

(** [mapIntentToComponents(intent)]. [None] stands for the [TypeError] the
    method throws when [intent.type] is an inherited property name: the
    lookup then yields a value without [components]. *)
Definition mapIntentToComponents (clock : nat -> Z) (intent : Intent)
    : option ComponentManifest :=
  match Js.get (type intent) getIntentMapping with
  | Some config =>
      let components := selectComponentsForIntent clock intent config in
      Some {| action := "add_components";
              manifest_components := components;
              manifest_layout := determineLayout components;
              animations := getAnimationConfig (confidence intent);
              priority := Some (if Js.num_gt (confidence intent) (8 # 10)
                                then high else normal) |}
  | None =>
      if isInherited (type intent) then None
      else Some (getDefaultManifest clock)
  end.

End ComponentRegistry.

(* ===================================================================== *)
(** ** IntentAnalyzer.ts: class IntentMapper *)
(* ===================================================================== *)

Module IntentMapper.
Import Js.

(** [IntentAnalysis], restricted to the fields the mapper reads. The
    [context] bag carries [urgency], [sentiment], ... under their names. *)
Record Intent : Type := {
  type : string;
  confidence : Q;
  originalMessage : string;
}.

Record IntentAnalysis : Type := {
  intent : Intent;
  entities : Obj;
  context : Obj;
}.

Record Position : Type := {
  area : string;
  order : Z;
}.

(** [AnimationConfig] as the values really are at run time: the rule table
    leaves [exit] out of its literals, and a modification can replace the
    whole object by one without [exit]. *)
Record AnimationConfig : Type := {
  enter : option string;
  exit : option string;
  duration : option Q;
  stagger : option Q;
}.

(** [props] of a definition: a plain bag or a function of the analysis
    ([typeof comp.props === 'function']). *)
Inductive PropsSource : Type :=
| Static (o : Obj)
| Derived (f : IntentAnalysis -> Obj).

Record ComponentDefinition : Type := {
  def_type : string;
  def_props : PropsSource;
  def_position : Position;
}.

Record ComponentInstance : Type := {
  id : string;
  ctype : string;
  props : Obj;
  position : Position;
  animationDelay : option Q;
}.

Inductive Action : Type := add | remove | modify.

(** [modifications] is typed [Record<string, any>]; the rule table writes
    the keys [animation] and [props] only, and these are the ones kept. *)
Record Modifications : Type := {
  mod_animation : option AnimationConfig;
  mod_props : option Obj;
}.

Record RuleInstruction : Type := {
  action : Action;
  components : option (list ComponentDefinition);
  layout : option string;
  animation : option AnimationConfig;
  modifications : option Modifications;
}.

(** A condition returns whatever its [&&] chain evaluates to; the caller
    uses its truthiness. *)
Record MappingRule : Type := {
  rule_id : string;
  condition : IntentAnalysis -> JsVal;
  instruction : RuleInstruction;
}.

(** The instruction under construction. [ui_props] is the extra [props]
    key that [Object.assign] can write on it. *)
Record UIInstruction : Type := {
  ui_action : string;
  ui_components : list ComponentInstance;
  ui_layout : string;
  ui_animation : AnimationConfig;
  ui_props : option Obj;
}.

(** The readings of [Date.now()] and of
    [Math.random().toString(36).substr(2, 9)], by call number. *)
Record Oracle : Type := {
  date_now : nat -> Z;
  math_random : nat -> string;
}.

(** [o.k] for a possibly missing key. *)
Definition prop (k : string) (o : Obj) : JsVal :=
  default VUndefined (get k o).

(** [a && b] with a boolean on the left. *)
Definition js_and (a : bool) (b : JsVal) : JsVal :=
  if a then b else VBool false.

(** [if (entities.src) filters.dst = entities.src]. *)
Definition copy_if_truthy (src dst : string) (entities filters : Obj) : Obj :=
  if truthy (prop src entities) then set dst (prop src entities) filters
  else filters.

Definition extractFilters (entities : Obj) : Obj :=
  let filters : Obj := [] in
  let filters := copy_if_truthy "color" "color" entities filters in
  let filters := copy_if_truthy "product_type" "category" entities filters in
  let filters := copy_if_truthy "occasion" "occasion" entities filters in
  let filters := copy_if_truthy "price_range" "priceRange" entities filters in
  let filters := copy_if_truthy "style" "style" entities filters in
  filters.

Definition includes (l : list string) (s : string) : bool :=
  existsb (String.eqb s) l.

Definition getAvailableFilters (entities : Obj) : list string :=
  let allFilters :=
    ["category"; "color"; "size"; "price"; "occasion"; "style"; "material"] in
  let mentionedFilters := keys (extractFilters entities) in
  let otherFilters :=
    List.filter (fun f => negb (includes mentionedFilters f)) allFilters in
  mentionedFilters ++ otherFilters.

Definition strings (l : list string) : JsVal := VArr (VStr <$> l).

Definition anim (e : string) (d : Q) (s : option Q) : AnimationConfig :=
  {| enter := Some e; exit := None; duration := Some d; stagger := s |}.

Definition add_rule (name : string) (cond : IntentAnalysis -> JsVal)
    (defs : list ComponentDefinition) (lay : string) (a : AnimationConfig)
    : MappingRule :=
  {| rule_id := name; condition := cond;
     instruction := {| action := add; components := Some defs;
                       layout := Some lay; animation := Some a;
                       modifications := None |} |}.

Definition greeting_rule : MappingRule :=
  add_rule "greeting_rule"
    (fun analysis =>
       js_and (String.eqb (type (intent analysis)) "greeting")
              (VBool (num_gt (confidence (intent analysis)) (7 # 10))))
    [ {| def_type := "WelcomeHero";
         def_props := Static
           [("message", VStr "Welcome to our world of luxury");
            ("subtitle", VStr "How may we assist you today?")];
         def_position := {| area := "hero"; order := 0 |} |};
      {| def_type := "SuggestionCards";
         def_props := Static
           [("suggestions", VArr
              [VObj [("text", VStr "Browse New Arrivals"); ("intent", VStr "product_browse")];
               VObj [("text", VStr "Book Styling Session"); ("intent", VStr "appointment")];
               VObj [("text", VStr "Explore Collections"); ("intent", VStr "brand_story")]])];
         def_position := {| area := "main"; order := 1 |} |} ]
    "centered"
    (anim "fadeInUp" (6 # 10) (Some (2 # 10))).

Definition browse_rule : MappingRule :=
  add_rule "browse_rule"
    (fun analysis =>
       js_and (String.eqb (type (intent analysis)) "product_browse")
              (VBool (num_gt (confidence (intent analysis)) (6 # 10))))
    [ {| def_type := "ProductGrid";
         def_props := Derived (fun analysis =>
           [("filters", VObj (extractFilters (entities analysis)));
            ("initialProducts", VNum 12);
            ("enableInfiniteScroll", VBool true)]);
         def_position := {| area := "main"; order := 0 |} |};
      {| def_type := "FilterPanel";
         def_props := Derived (fun analysis =>
           [("availableFilters", strings (getAvailableFilters (entities analysis)));
            ("activeFilters", VObj (extractFilters (entities analysis)));
            ("position", VStr "sidebar")]);
         def_position := {| area := "sidebar"; order := 0 |} |} ]
    "two-column"
    (anim "slideIn" (5 # 10) None).

Definition detail_rule : MappingRule :=
  add_rule "detail_rule"
    (fun analysis =>
       js_and (String.eqb (type (intent analysis)) "product_detail")
              (prop "productId" (entities analysis)))
    [ {| def_type := "ProductDetailView";
         def_props := Derived (fun analysis =>
           [("productId", prop "productId" (entities analysis));
            ("showCraftsmanship", VBool true);
            ("enable360View", VBool true)]);
         def_position := {| area := "main"; order := 0 |} |};
      {| def_type := "RelatedProducts";
         def_props := Derived (fun analysis =>
           [("productId", prop "productId" (entities analysis));
            ("maxItems", VNum 4)]);
         def_position := {| area := "bottom"; order := 1 |} |} ]
    "full-width"
    (anim "fadeIn" (4 # 10) None).

Definition style_advice_rule : MappingRule :=
  add_rule "style_advice_rule"
    (fun analysis => VBool (String.eqb (type (intent analysis)) "style_advice"))
    [ {| def_type := "StyleAdvisor";
         def_props := Derived (fun analysis =>
           [("occasion", prop "occasion" (entities analysis));
            ("preferences", VObj (entities analysis));
            ("mode", VStr "interactive")]);
         def_position := {| area := "main"; order := 0 |} |};
      {| def_type := "OutfitBuilder";
         def_props := Static
           [("allowMixMatch", VBool true); ("showPricing", VBool true)];
         def_position := {| area := "sidebar"; order := 0 |} |} ]
    "split-view"
    (anim "slideInFromRight" (5 # 10) None).

Definition store_visit_rule : MappingRule :=
  add_rule "store_visit_rule"
    (fun analysis => VBool (String.eqb (type (intent analysis)) "store_visit"))
    [ {| def_type := "StoreLocator";
         def_props := Static
           [("showMap", VBool true); ("enableGeolocation", VBool true)];
         def_position := {| area := "main"; order := 0 |} |};
      {| def_type := "AppointmentScheduler";
         def_props := Static
           [("serviceTypes", strings ["personal-shopping"; "styling-consultation"]);
            ("showAvailability", VBool true)];
         def_position := {| area := "sidebar"; order := 0 |} |} ]
    "map-view"
    (anim "expandFromCenter" (6 # 10) None).

Definition urgency_modifier : MappingRule :=
  {| rule_id := "urgency_modifier";
     condition := fun analysis =>
       js_and (str_eq (prop "urgency" (context analysis)) "high")
              (VBool (num_gt (confidence (intent analysis)) (8 # 10)));
     instruction :=
       {| action := modify; components := None; layout := None;
          animation := None;
          modifications := Some
            {| mod_animation := Some
                 {| enter := Some "instant"; exit := None;
                    duration := Some (3 # 10); stagger := None |};
               mod_props := Some
                 [("priority", VStr "high"); ("showQuickActions", VBool true)] |} |} |}.

Definition initializeMappingRules : list MappingRule :=
  [ greeting_rule; browse_rule; detail_rule; style_advice_rule;
    store_visit_rule; urgency_modifier ].

(** The conditions are total on typed analyses, so the [catch] branch of
    the source (a throwing condition counts as no match) is never taken. *)
Definition evaluateRule (rule : MappingRule) (analysis : IntentAnalysis) : bool :=
  truthy (condition rule analysis).

(** The factor of the per-index delay of [mergeInstructions]
    ([length * 0.1]): the double the literal 0.1 denotes. *)
Definition staggerUnit : Q := Double.lit (1 # 10).

(** [`${comp.type}-${Date.now()}-${Math.random()...}`]: the [k]-th id
    synthesized by one call of [mergeInstructions]. *)
Definition fresh_id (o : Oracle) (k : nat) (ty : string) : string :=
  ty +:+ "-" +:+ pretty (date_now o k) +:+ "-" +:+ math_random o k.

Definition resolve_props (p : PropsSource) (analysis : IntentAnalysis) : Obj :=
  match p with
  | Static bag => bag
  | Derived f => f analysis
  end.

(** One [baseInstruction.components!.push({...})]. *)
Definition push_component (o : Oracle) (analysis : IntentAnalysis)
    (draft : list ComponentInstance) (comp : ComponentDefinition)
    : list ComponentInstance :=
  draft ++
  [ {| id := fresh_id o (length draft) (def_type comp);
       ctype := def_type comp;
       props := resolve_props (def_props comp) analysis;
       position := def_position comp;
       animationDelay :=
         Some (Double.mul (Double.of_nat (length draft)) staggerUnit) |} ].

(** [{ ...a, ...b }] on animation objects: a key present in [b] wins. *)
Definition spread_animation (a b : AnimationConfig) : AnimationConfig :=
  {| enter := match enter b with Some x => Some x | None => enter a end;
     exit := match exit b with Some x => Some x | None => exit a end;
     duration := match duration b with Some x => Some x | None => duration a end;
     stagger := match stagger b with Some x => Some x | None => stagger a end |}.

(** [Object.assign(baseInstruction, instruction.modifications)]: each key of
    the modifications replaces the draft's value for that key wholesale. *)
Definition apply_modifications (base : UIInstruction)
    (m : option Modifications) : UIInstruction :=
  match m with
  | None => base
  | Some m =>
      {| ui_action := ui_action base;
         ui_components := ui_components base;
         ui_layout := ui_layout base;
         ui_animation := match mod_animation m with
                         | Some a => a
                         | None => ui_animation base
                         end;
         ui_props := match mod_props m with
                     | Some p => Some p
                     | None => ui_props base
                     end |}
  end.

(** The body of [rules.forEach(rule => ...)]. *)
Definition merge_rule (o : Oracle) (analysis : IntentAnalysis)
    (base : UIInstruction) (rule : MappingRule) : UIInstruction :=
  let instruction := instruction rule in
  match action instruction with
  | modify => apply_modifications base (modifications instruction)
  | _ =>
      {| ui_action := ui_action base;
         ui_components :=
           match components instruction with
           | Some defs =>
               fold_left (push_component o analysis) defs (ui_components base)
           | None => ui_components base
           end;
         ui_layout :=
           match layout instruction with
           | Some l => if String.eqb l EmptyString then ui_layout base else l
           | None => ui_layout base
           end;
         ui_animation :=
           match animation instruction with
           | Some a => spread_animation (ui_animation base) a
           | None => ui_animation base
           end;
         ui_props := ui_props base |}
  end.

Definition baseInstruction : UIInstruction :=
  {| ui_action := "add";
     ui_components := [];
     ui_layout := "default";
     ui_animation := {| enter := Some "fadeIn"; exit := Some "fadeOut";
                        duration := Some (5 # 10); stagger := None |};
     ui_props := None |}.

Definition mergeInstructions (o : Oracle) (rules : list MappingRule)
    (analysis : IntentAnalysis) : UIInstruction :=
  fold_left (merge_rule o analysis) rules baseInstruction.

Definition getDefaultInstruction (o : Oracle) : UIInstruction :=
  {| ui_action := "add";
     ui_components :=
       [ {| id := "help-" +:+ pretty (date_now o 0);
            ctype := "HelpPanel";
            props := [("message", VStr "I'm here to help. What would you like to explore?");
                      ("showSuggestions", VBool true)];
            position := {| area := "main"; order := 0 |};
            animationDelay := None |} ];
     ui_layout := "centered";
     ui_animation := {| enter := Some "fadeIn"; exit := Some "fadeOut";
                        duration := Some (3 # 10); stagger := None |};
     ui_props := None |}.

Definition mapToUIInstructions (o : Oracle) (analysis : IntentAnalysis)
    : UIInstruction :=
  let matchingRules :=
    List.filter (fun rule => evaluateRule rule analysis) initializeMappingRules in
  if (length matchingRules =? 0)%nat then getDefaultInstruction o
  else mergeInstructions o matchingRules analysis.

End IntentMapper.

(* ===================================================================== *)
(** ** IntentAnalyzer.ts: class IntentAnalyzer *)
(* ===================================================================== *)

Module IntentAnalyzer.
Import Js IntentMapper.

(** [hay.includes(needle)] on strings. *)
Fixpoint includes (needle hay : string) : bool :=
  if String.prefix needle hay then true
  else match hay with
       | EmptyString => false
       | String _ rest => includes needle rest
       end.

(** The number of [" "] in a string: [s.split(' ').length] is one more. *)
Fixpoint count_spaces (s : string) : nat :=
  match s with
  | EmptyString => 0
  | String a rest =>
      (if Ascii.eqb a " "%char then 1 else 0) + count_spaces rest
  end.

Definition split_length (s : string) : nat := S (count_spaces s).

(** The own properties of [intentIndicators]. *)
Definition intentIndicators : list (string * list string) :=
  [ ("product_browse", ["show"; "browse"; "looking for"; "need"; "want"]);
    ("product_detail", ["tell me about"; "details"; "information"; "how"; "what"]);
    ("style_advice", ["suggest"; "recommend"; "help me"; "advice"; "match"]);
    ("store_visit", ["visit"; "store"; "location"; "in person"; "see"]);
    ("appointment", ["book"; "appointment"; "schedule"; "meet"; "consultation"]) ].

(** [intentIndicators[type] || []]. Under a property name inherited from
    [Object.prototype] the lookup yields a truthy value that has no
    [some], and the call on it throws: [None]. *)
Definition indicatorsFor (ty : string) : option (list string) :=
  match get ty intentIndicators with
  | Some indicators => Some indicators
  | None => if ComponentRegistry.isInherited ty then None else Some []
  end.

(** [applyConfidenceRules(analysis)], with [String.prototype.toLowerCase]
    passed in as [toLowerCase]. The two products are products of doubles;
    [Math.min] returns one of its arguments. *)
Definition applyConfidenceRules (toLowerCase : string -> string)
    (analysis : IntentAnalysis) : option Q :=
  let confidence := confidence (intent analysis) in
  let lowerMessage := toLowerCase (originalMessage (intent analysis)) in
  match indicatorsFor (type (intent analysis)) with
  | None => None
  | Some indicators =>
      let confidence :=
        if existsb (fun indicator => includes indicator lowerMessage) indicators
        then Qmin (Double.mul confidence (Double.lit (12 # 10)))
                  (Double.lit (95 # 100))
        else confidence in
      let confidence :=
        if (split_length lowerMessage <? 3)%nat
        then Double.mul confidence (Double.lit (8 # 10))
        else confidence in
      Some confidence
  end.

(** What [JSON.parse] returned, in the shape the system prompt asks the
    model for: every field may be missing. [raw_confidence] is the number
    as the completion wrote it; [JSON.parse] reads it as the nearest
    double. *)
Record RawIntent : Type := {
  raw_type : option string;
  raw_confidence : option Q;
}.

Record RawResult : Type := {
  raw_intent : option RawIntent;
  raw_entities : option Obj;
  raw_context : option Obj;
}.

(** [s || fallback] on an optional string. *)
Definition str_or (s : option string) (fallback : string) : string :=
  match s with
  | Some x => if String.eqb x EmptyString then fallback else x
  | None => fallback
  end.

(** [n || fallback] on an optional number. *)
Definition num_or (n : option Q) (fallback : Q) : Q :=
  match n with
  | Some x => if Qeq_bool x 0 then fallback else x
  | None => fallback
  end.

(** [bag?.k || fallback]. *)
Definition prop_or (k : string) (bag : option Obj) (fallback : JsVal) : JsVal :=
  ComponentRegistry.js_or (ComponentRegistry.opt_prop k bag) fallback.

(** [validateAndEnhanceAnalysis(result, originalMessage)], for the fields
    of the analysis the mapper reads; [extractedAt] is the ISO time stamp
    the method reads from the clock. [None] when [applyConfidenceRules]
    throws. *)
Definition validateAndEnhanceAnalysis (toLowerCase : string -> string)
    (extractedAt : string) (result : RawResult) (originalMessage : string)
    : option IntentAnalysis :=
  let analysis :=
    {| intent :=
         {| type := str_or (raw_intent result ≫= raw_type) "unknown";
            confidence :=
              Qmin (Qmax (num_or (Double.lit <$> (raw_intent result ≫= raw_confidence))
                                 (Double.lit (5 # 10))) 0) 1;
            originalMessage := originalMessage |};
       entities :=
         assign (assign [] (default [] (raw_entities result)))
                [("extractedAt", VStr extractedAt)];
       context :=
         assign
           [("urgency", prop_or "urgency" (raw_context result) (VStr "medium"));
            ("sentiment", prop_or "sentiment" (raw_context result) (VStr "neutral"));
            ("conversationStage",
             prop_or "conversation_stage" (raw_context result) (VStr "exploring"));
            ("userExpertise",
             prop_or "user_expertise" (raw_context result) (VStr "intermediate"))]
           (default [] (raw_context result)) |} in
  match applyConfidenceRules toLowerCase analysis with
  | Some confidence =>
      Some {| intent := {| type := type (intent analysis);
                           confidence := confidence;
                           originalMessage := originalMessage |};
              entities := entities analysis;
              context := context analysis |}
  | None => None
  end.

Definition getFallbackAnalysis (message : string) : IntentAnalysis :=
  {| intent := {| type := "support"; confidence := 5 # 10;
                  originalMessage := message |};
     entities := [];
     context := [("urgency", VStr "medium"); ("sentiment", VStr "neutral");
                 ("conversationStage", VStr "exploring");
                 ("userExpertise", VStr "intermediate")] |}.

(** What [analyzeIntent(message)] resolves to, given what the completion
    parsed to ([None]: the request or [JSON.parse] threw). Every exception
    ends in the [catch] block, which returns the fallback analysis. *)
Definition analyzeIntent (toLowerCase : string -> string) (extractedAt : string)
    (completion : option RawResult) (message : string) : IntentAnalysis :=
  match completion with
  | Some result =>
      match validateAndEnhanceAnalysis toLowerCase extractedAt result message with
      | Some analysis => analysis
      | None => getFallbackAnalysis message
      end
  | None => getFallbackAnalysis message
  end.

End IntentAnalyzer.

(* ===================================================================== *)
(** ** AssemblyEngine.ts: class LayoutEngine and class AssemblyEngine *)
(* ===================================================================== *)

Module AssemblyEngine.
Import Js.

Record Position : Type := {
  area : string;
  order : Z;
  width : option string;
  maxWidth : option string;
  gridColumn : option Z;
  gridRow : option Z;
}.

(** [Partial<Position>]. *)
Record PartialPosition : Type := {
  p_area : option string;
  p_order : option Z;
  p_width : option string;
  p_maxWidth : option string;
  p_gridColumn : option Z;
  p_gridRow : option Z;
}.

Record ComponentInstance : Type := {
  id : string;
  type : string;
  props : Obj;
  position : Position;
  animationDelay : option Q;
}.

Inductive Status : Type := mounting | mounted | unmounting.

(** [interface ComponentState extends ComponentInstance]: the instance's
    fields ([{...component}]) plus [status] and [mountedAt]. *)
Record ComponentState : Type := {
  instance : ComponentInstance;
  status : Status;
  mountedAt : Z;
}.

Record ComponentUpdate : Type := {
  u_id : string;
  u_props : option Obj;
  u_position : option PartialPosition;
}.

Record AnimationConfig : Type := {
  enter : string;
  exit : string;
  duration : Q;
  stagger : option Q;
  ease : option (list Q);
}.

(** The wire instruction; every payload field is optional in the source
    type, and [action] arrives as a string. *)
Record UIInstruction : Type := {
  action : string;
  components : option (list ComponentInstance);
  componentIds : option (list string);
  updates : option (list ComponentUpdate);
  layout : option string;
  animation : option AnimationConfig;
}.

Record AssemblyState : Type := {
  s_components : list ComponentState;
  s_layout : option string;
  s_timestamp : Z;
}.

(** A subscriber callback, known to the engine only as a reference. *)
Inductive Callback : Type := Subscriber (handle : nat).

(** [activeComponents]: a [Map<string, ComponentState>]. *)
Definition Active : Type := list (string * ComponentState).

(** The engine's own fields. [currentLayout] is the field of its
    [LayoutEngine]; it holds [undefined] ([None]) after a reorganize whose
    instruction carried no [layout]. *)
Record t : Type := {
  activeComponents : Active;
  currentLayout : option string;
  updateCallback : option Callback;
}.

(** What the engine reads from outside while it applies one instruction:
    the singleton registry, [Date.now()] for the [k]-th component of an Add
    batch, and [Date.now()] for the snapshot. *)
Record Env : Type := {
  registry : ComponentRegistry.t;
  date_now : nat -> Z;
  snapshot_now : Z;
}.

(** [new AssemblyEngine()]. *)
Definition new : t :=
  {| activeComponents := []; currentLayout := Some "default";
     updateCallback := None |}.

(** *** LayoutEngine *)

Definition isSidebar (c : ComponentState) : bool :=
  existsb (String.eqb (type (instance c))) ["FilterPanel"; "NavigationPanel"].

Definition centeredAt (index : nat) : Position :=
  {| area := "center"; order := Z.of_nat index; width := Some "100%";
     maxWidth := Some "600px"; gridColumn := None; gridRow := None |}.

Definition sidebarAt (index : nat) : Position :=
  {| area := "sidebar"; order := Z.of_nat index; width := Some "300px";
     maxWidth := None; gridColumn := None; gridRow := None |}.

Definition mainAt (index : nat) : Position :=
  {| area := "main"; order := Z.of_nat index; width := Some "100%";
     maxWidth := None; gridColumn := None; gridRow := None |}.

Definition gridAt (index : nat) : Position :=
  {| area := "grid"; order := Z.of_nat index; width := Some "auto";
     maxWidth := None;
     gridColumn := Some (Z.of_nat index mod 3 + 1)%Z;
     gridRow := Some (Z.of_nat index / 3 + 1)%Z |}.

(** [list.forEach((component, index) => positions.set(component.id, at(index)))]. *)
Definition setEach (at_ : nat -> Position) (l : list ComponentState)
    (positions : list (string * Position)) : list (string * Position) :=
  assign positions (imap (fun index c => (id (instance c), at_ index)) l).

(** [case 'key':] of a [switch (layout)]: strict equality with a string. *)
Definition is_key (layout : option string) (key : string) : bool :=
  match layout with
  | Some l => String.eqb l key
  | None => false
  end.

(** [calculatePositions(components, layout)]: the [Map] it returns. (It
    also stores [layout] in [currentLayout]; see [processInstruction].) *)
Definition calculatePositions (components : list ComponentState)
    (layout : option string) : list (string * Position) :=
  let positions : list (string * Position) := [] in
  if is_key layout "centered" then setEach centeredAt components positions
  else if is_key layout "two-column" then
    let sidebarComponents := List.filter isSidebar components in
    let mainComponents := List.filter (fun c => negb (isSidebar c)) components in
    let positions := setEach sidebarAt sidebarComponents positions in
    setEach mainAt mainComponents positions
  else if is_key layout "grid" then setEach gridAt components positions
  else setEach mainAt components positions.

(** *** AssemblyEngine: the mutations, one per source statement *)

(** One write to [activeComponents] (or to an object it holds). *)
Definition Step : Type := Active -> Active.

Definition run (steps : list Step) (m : Active) : Active :=
  fold_left (fun m step => step m) steps m.

Definition with_status (s : Status) (c : ComponentState) : ComponentState :=
  {| instance := instance c; status := s; mountedAt := mountedAt c |}.

Definition with_instance (f : ComponentInstance -> ComponentInstance)
    (c : ComponentState) : ComponentState :=
  {| instance := f (instance c); status := status c; mountedAt := mountedAt c |}.

Definition with_position (p : Position) (i : ComponentInstance) : ComponentInstance :=
  {| id := id i; type := type i; props := props i; position := p;
     animationDelay := animationDelay i |}.

(** The first loop of [addComponents]: an unregistered type is skipped,
    otherwise the state is created with status ['mounting'] and stored
    under the component's id. *)
Definition add_one (env : Env) (k : nat) (component : ComponentInstance) : Step :=
  fun m =>
    if negb (ComponentRegistry.has (type component) (registry env)) then m
    else
      let state := {| instance := component; status := mounting;
                      mountedAt := date_now env k |} in
      set (id component) state m.

(** The closing [components.forEach] of [addComponents]. *)
Definition mark_mounted (component : ComponentInstance) : Step :=
  adjust (with_status mounted) (id component).

(** [addComponents]: all insertions, then (after [Promise.all]) all
    status updates. Scheduling an animation does not touch the map. *)
Definition addComponents_steps (env : Env) (components : list ComponentInstance)
    : list Step :=
  imap (add_one env) components ++ map mark_mounted components.

Definition mark_unmounting (id : string) : Step :=
  adjust (with_status unmounting) id.

(** [removeComponents]. With an animation configuration the deletions are
    the [then] callbacks of the scheduled exits, which run after the loop;
    an id is scheduled when the loop found it in the map. Without one each
    id is deleted inside the loop. An absent id is skipped: both writes
    leave the map as it is. *)
Definition removeComponents_steps (animationConfig : option AnimationConfig)
    (componentIds : list string) (m : Active) : list Step :=
  match animationConfig with
  | Some _ =>
      map mark_unmounting componentIds ++
      map (fun id => delete id : Step)
          (List.filter (fun id => has id m) componentIds)
  | None =>
      concat (map (fun id => [mark_unmounting id; (delete id : Step)]) componentIds)
  end.

(** [{ ...a, ...b }] on property bags. *)
Definition spread (a b : Obj) : Obj := assign (assign [] a) b.

(** [{ ...component.position, ...update.position }]. *)
Definition spread_position (a : Position) (b : PartialPosition) : Position :=
  {| area := default (area a) (p_area b);
     order := default (order a) (p_order b);
     width := match p_width b with Some w => Some w | None => width a end;
     maxWidth := match p_maxWidth b with Some w => Some w | None => maxWidth a end;
     gridColumn := match p_gridColumn b with Some w => Some w | None => gridColumn a end;
     gridRow := match p_gridRow b with Some w => Some w | None => gridRow a end |}.

(** The body of the loop of [updateComponents], on the component found. *)
Definition apply_update (update : ComponentUpdate) (i : ComponentInstance)
    : ComponentInstance :=
  {| id := id i;
     type := type i;
     props := spread (props i) (default [] (u_props update));
     position := match u_position update with
                 | Some p => spread_position (position i) p
                 | None => position i
                 end;
     animationDelay := animationDelay i |}.

Definition update_one (update : ComponentUpdate) : Step :=
  adjust (with_instance (apply_update update)) (u_id update).

Definition updateComponents_steps (updates : list ComponentUpdate) : list Step :=
  map update_one updates.

(** [reorganizeLayout]: [positions.forEach] over the computed map. *)
Definition reorganizeLayout_steps (newLayout : option string) (m : Active)
    : list Step :=
  let positions := calculatePositions (values m) newLayout in
  map (fun entry : string * Position =>
         adjust (with_instance (with_position entry.2)) entry.1 : Step)
      positions.

(** The [switch] of [processInstruction]: the writes the instruction
    causes, or [None] when the handler throws before any write (iterating
    a payload that is [undefined]). An unknown action only warns. *)
Definition instruction_steps (env : Env) (instruction : UIInstruction)
    (m : Active) : option (list Step) :=
  let case_ (a : string) := String.eqb (action instruction) a in
  if case_ "add" then addComponents_steps env <$> components instruction
  else if case_ "remove" then
    (fun ids => removeComponents_steps (animation instruction) ids m)
      <$> componentIds instruction
  else if case_ "update" then updateComponents_steps <$> updates instruction
  else if case_ "reorganize" then
    Some (reorganizeLayout_steps (layout instruction) m)
  else Some [].

Definition getState (now : Z) (e : t) : AssemblyState :=
  {| s_components := values (activeComponents e);
     s_layout := currentLayout e;
     s_timestamp := now |}.

(** [onUpdate(callback)]. *)
Definition onUpdate (callback : Callback) (e : t) : t :=
  {| activeComponents := activeComponents e;
     currentLayout := currentLayout e;
     updateCallback := Some callback |}.

(** [notifyUpdate()]: the callback invocations it makes. *)
Definition notifyUpdate (now : Z) (e : t) : list (Callback * AssemblyState) :=
  match updateCallback e with
  | Some callback => [(callback, getState now e)]
  | None => []
  end.

(** The result of [await processInstruction(i)]: it resolves, with the
    engine it leaves and the callback invocations it made, or it rejects. *)
Inductive Outcome : Type :=
| Resolved (e : t) (delivered : list (Callback * AssemblyState))
| Rejected (e : t).

Definition processInstruction (env : Env) (instruction : UIInstruction) (e : t)
    : Outcome :=
  match instruction_steps env instruction (activeComponents e) with
  | None => Rejected e
  | Some steps =>
      let e' :=
        {| activeComponents := run steps (activeComponents e);
           currentLayout :=
             if String.eqb (action instruction) "reorganize"
             then layout instruction else currentLayout e;
           updateCallback := updateCallback e |} in
      Resolved e' (notifyUpdate (snapshot_now env) e')
  end.

Definition engine_of (r : Outcome) : t :=
  match r with Resolved e _ => e | Rejected e => e end.

Definition delivered_of (r : Outcome) : list (Callback * AssemblyState) :=
  match r with Resolved _ d => d | Rejected _ => [] end.

(** [clear()]: every active id is removed with the fixed fade-out
    configuration. It calls [removeComponents] directly, so no callback is
    invoked. *)
Definition clearAnimation : AnimationConfig :=
  {| enter := "fadeOut"; exit := "fadeOut"; duration := 3 # 10;
     stagger := None; ease := None |}.

Definition clear (e : t) : t :=
  let ids := keys (activeComponents e) in
  {| activeComponents :=
       run (removeComponents_steps (Some clearAnimation) ids (activeComponents e))
           (activeComponents e);
     currentLayout := currentLayout e;
     updateCallback := updateCallback e |}.

End AssemblyEngine.

(* ===================================================================== *)
(** ** Vocabulary of the statements *)
(* ===================================================================== *)

(** The terms in which the properties below are stated, and the concrete
    registries, intents, engines and runs on which they are exercised. *)

Section RegistryTerms.
Import ComponentRegistry.

Definition cardV1 : ComponentType := ReactComponent "ProductCardV1".
Definition cardV2 : ComponentType := ReactComponent "ProductCardV2".

Definition cardMeta : ComponentMetadata :=
  {| category := display; description := "A product card";
     requiredProps := Some ["product"]; optionalProps := None |}.

End RegistryTerms.

Section MapperTerms.
Import Js IntentMapper.

(** The intent of scenario B at confidence [c]: a browse request tagged
    urgent, with no extracted entities. *)
Definition scenarioB (c : Q) : IntentAnalysis :=
  {| intent := {| type := "product_browse"; confidence := c;
                  originalMessage := "show me" |};
     entities := [];
     context := [("urgency", VStr "high")] |}.

Definition matchingRules (analysis : IntentAnalysis) : list string :=
  rule_id <$> List.filter (fun rule => evaluateRule rule analysis)
                          initializeMappingRules.

Definition fixedOracle : Oracle :=
  {| date_now := fun _ => 1700000000000%Z;
     math_random := fun k => "r" +:+ pretty k |}.

Definition browseAnimation : AnimationConfig :=
  {| enter := Some "slideIn"; exit := Some "fadeOut";
     duration := Some (5 # 10); stagger := None |}.

Definition urgentAnimation : AnimationConfig :=
  {| enter := Some "instant"; exit := None;
     duration := Some (3 # 10); stagger := None |}.

(** An intent no rule matches: a support request at confidence 0.5. *)
Definition supportIntent : IntentAnalysis :=
  {| intent := {| type := "support"; confidence := 5 # 10;
                  originalMessage := "help" |};
     entities := [];
     context := [("urgency", VStr "medium")] |}.

Definition fallbackAnimation : AnimationConfig :=
  {| enter := Some "fadeIn"; exit := Some "fadeOut";
     duration := Some (3 # 10); stagger := None |}.

(** The component definitions a rule contributes: those of a rule that is
    not a modifier. *)
Definition contributed (rule : MappingRule) : list ComponentDefinition :=
  match action (instruction rule) with
  | modify => []
  | _ => default [] (components (instruction rule))
  end.



Definition is_modifier (rule : MappingRule) : bool :=
  match action (instruction rule) with modify => true | _ => false end.

End MapperTerms.

Section EngineTerms.
Import Js AssemblyEngine.
Implicit Types (m : Active) (k : string) (e : t).

Definition frame_fields (c c' : ComponentState) : Prop :=
  id (instance c') = id (instance c) /\
  type (instance c') = type (instance c) /\
  status c' = status c /\
  mountedAt c' = mountedAt c /\
  animationDelay (instance c') = animationDelay (instance c).

(** A step that never adds a key, and a step that leaves alone every map
    lacking [id]. *)
Definition adds_no_key (s : Step) : Prop :=
  forall m k, get k m = None -> get k (s m) = None.

Definition skips (id : string) (s : Step) : Prop :=
  forall m, get id m = None -> s m = m.

(** The instruction [i] with its list of ids replaced. *)
Definition with_componentIds (ids : list string) (i : UIInstruction) : UIInstruction :=
  {| action := action i; components := components i;
     componentIds := Some ids; updates := updates i;
     layout := layout i; animation := animation i |}.

Definition without (x : string) (ids : list string) : list string :=
  List.filter (fun id => negb (String.eqb id x)) ids.

Definition pos0 : Position :=
  {| area := "main"; order := 0; width := None; maxWidth := None;
     gridColumn := None; gridRow := None |}.

Definition component (name ty : string) : ComponentInstance :=
  {| id := name; type := ty; props := []; position := pos0;
     animationDelay := None |}.

Definition twoRegistered : ComponentRegistry.t :=
  ComponentRegistry.register "FilterPanel"
    (ComponentRegistry.ReactComponent "FilterPanel") None
    (ComponentRegistry.register "ProductGrid"
       (ComponentRegistry.ReactComponent "ProductGrid") None
       ComponentRegistry.empty).

Definition env0 : Env :=
  {| registry := twoRegistered; date_now := fun n => (1000 + Z.of_nat n)%Z;
     snapshot_now := 2000%Z |}.

Definition addOf (cs : list ComponentInstance) : UIInstruction :=
  {| action := "add"; components := Some cs; componentIds := None;
     updates := None; layout := None; animation := None |}.

Definition removeOf (ids : list string) : UIInstruction :=
  {| action := "remove"; components := None; componentIds := Some ids;
     updates := None; layout := None; animation := None |}.

Definition reorganizeTo (l : string) : UIInstruction :=
  {| action := "reorganize"; components := None; componentIds := None;
     updates := None; layout := Some l; animation := None |}.

(** An engine with two mounted components, [grid-1] and [filters-1]. *)
Definition twoMounted : t :=
  engine_of (processInstruction env0
    (addOf [component "grid-1" "ProductGrid"; component "filters-1" "FilterPanel"])
    new).

Definition idOf (c : ComponentState) : string := id (instance c).

(** What the layout engine reads of a component: its id and its type. *)
Definition shape (c : ComponentState) : string * string :=
  (id (instance c), type (instance c)).

(** Whether [c'] goes to the same column as [c]. *)
Definition sameArea (c c' : ComponentState) : bool :=
  Bool.eqb (isSidebar c) (isSidebar c').

(** The number of components before index [i] that go to [c]'s column. *)
Definition rank (c : ComponentState) (i : nat) (l : list ComponentState) : nat :=
  length (List.filter (sameArea c) (take i l)).

Definition twoColumnAt (c : ComponentState) (index : nat) : Position :=
  if isSidebar c then sidebarAt index else mainAt index.

Definition mountedState (name ty : string) : ComponentState :=
  {| instance := component name ty; status := mounted; mountedAt := 1000 |}.

Definition threeStates : list ComponentState :=
  [ mountedState "grid-1" "ProductGrid";
    mountedState "filters-1" "FilterPanel";
    mountedState "nav-1" "NavigationPanel" ].

(** One [component.position = position] of [reorganizeLayout]. *)
Definition reposition (entry : string * Position) : Step :=
  adjust (with_instance (with_position entry.2)) entry.1.

(** The status the engine holds for an id; [None] when the id is not in
    the active set. *)
Definition statusOf k m : option Status := status <$> get k m.

(** The moves of a status that the engine makes: an id enters as
    [mounting], becomes [mounted], then [unmounting], then leaves the map;
    a write that leaves the status as it is counts as no move. *)
Definition edge (a b : option Status) : bool :=
  match a, b with
  | None, None | None, Some mounting => true
  | Some mounting, Some mounting | Some mounting, Some mounted => true
  | Some mounted, Some mounted | Some mounted, Some unmounting => true
  | Some unmounting, Some unmounting | Some unmounting, None => true
  | _, _ => false
  end.

(** A write obeys the edges when every id's status does. *)
Definition obeys (s : Step) m : Prop :=
  forall k, edge (statusOf k m) (statusOf k (s m)) = true.

Fixpoint steps_obey (steps : list Step) m : Prop :=
  match steps with
  | [] => True
  | s :: rest => obeys s m /\ steps_obey rest (s m)
  end.

(** Between instructions: every active component is mounted. *)
Definition resting m : Prop :=
  forall k, statusOf k m = None \/ statusOf k m = Some mounted.

(** An Add batch is fresh when none of the components it will insert has
    an id that is already active. *)
Definition adds_fresh (env : Env) (i : UIInstruction) m : bool :=
  if String.eqb (action i) "add" then
    match components i with
    | Some cs =>
        forallb (fun c => negb (ComponentRegistry.has (type c) (registry env))
                          || negb (has (id c) m)) cs
    | None => true
    end
  else true.

(** A run: instructions applied one after the other, each awaited. A
    rejected instruction leaves the engine as it was. *)
Definition apply_call e (call : Env * UIInstruction) : t :=
  engine_of (processInstruction call.1 call.2 e).

Definition run_calls (calls : list (Env * UIInstruction)) e : t :=
  fold_left apply_call calls e.

Fixpoint calls_fresh (calls : list (Env * UIInstruction)) e : bool :=
  match calls with
  | [] => true
  | call :: rest =>
      adds_fresh call.1 call.2 (activeComponents e)
      && calls_fresh rest (apply_call e call)
  end.

Definition instruction_obeys (env : Env) (i : UIInstruction) m : Prop :=
  match instruction_steps env i m with
  | Some steps => steps_obey steps m
  | None => True
  end.

Fixpoint calls_obey (calls : list (Env * UIInstruction)) e : Prop :=
  match calls with
  | [] => True
  | call :: rest =>
      instruction_obeys call.1 call.2 (activeComponents e)
      /\ calls_obey rest (apply_call e call)
  end.

(** The six lifecycle states of the specification (section 4.4). *)
Inductive LifecycleState : Type :=
| Pending | Mounting | Mounted | Updating | Unmounting | Removed.

(** A status of the engine seen as a state of the specification; [None]
    is an id outside the active set. *)
Definition lifecycleOf (s : option Status) : option LifecycleState :=
  match s with
  | Some mounting => Some Mounting
  | Some mounted => Some Mounted
  | Some unmounting => Some Unmounting
  | None => None
  end.

(** The state machine in the specification's words: Pending -> Mounting
    -> Mounted; Mounted -> Updating -> Mounted; Mounted or Updating ->
    Unmounting -> Removed, where the id leaves the active set. An id
    enters the active set as Pending. Staying in a state is no move. *)
Definition spec_edge (a b : option LifecycleState) : bool :=
  match a, b with
  | None, Some Pending => true
  | Some Pending, Some Mounting => true
  | Some Mounting, Some Mounted => true
  | Some Mounted, Some Updating => true
  | Some Updating, Some Mounted => true
  | Some Mounted, Some Unmounting => true
  | Some Updating, Some Unmounting => true
  | Some Unmounting, None => true
  | Some Unmounting, Some Removed => true
  | None, None => true
  | Some Pending, Some Pending | Some Mounting, Some Mounting
  | Some Mounted, Some Mounted | Some Updating, Some Updating
  | Some Unmounting, Some Unmounting | Some Removed, Some Removed => true
  | _, _ => false
  end.

(** Writes that leave every status as it is. *)
Definition keeps_status (s : Step) : Prop :=
  forall m k, statusOf k (s m) = statusOf k m.

Definition registered (env : Env) (c : ComponentInstance) : bool :=
  ComponentRegistry.has (type c) (registry env).

(** The first loop of an Add batch [cs] started at the resting map [m0]:
    an id either has the status it had, or was absent and is now
    mounting, and then it is an id of the batch. *)
Definition inserting (cs : list ComponentInstance) (m0 m : Active) : Prop :=
  forall k, statusOf k m = statusOf k m0 \/
            (statusOf k m0 = None /\ statusOf k m = Some mounting /\
             k ∈ id <$> cs).

(** The closing loop over the rest [cs] of the batch: what is still
    mounting is an id of [cs]. *)
Definition mounting_within (cs : list ComponentInstance) m : Prop :=
  forall k, statusOf k m = None \/ statusOf k m = Some mounted \/
            (statusOf k m = Some mounting /\ k ∈ id <$> cs).

(** The marking loop of an animated Remove: nothing is mounting, and at
    its end the ids of the batch that are present are unmounting. *)
Definition none_mounting m : Prop :=
  forall k, statusOf k m <> Some mounting.

(** The deletions of an animated Remove, [rest] still to come: what is
    unmounting is still to be deleted, what is mounted is not. *)
Definition deleting (rest : list string) m : Prop :=
  forall k, statusOf k m = None \/
            (statusOf k m = Some mounted /\ k ∉ rest) \/
            (statusOf k m = Some unmounting /\ k ∈ rest).

Definition fadeOut : AnimationConfig :=
  {| enter := "fadeOut"; exit := "fadeOut"; duration := 3 # 10;
     stagger := None; ease := None |}.

Definition removeAnimated (ids : list string) : UIInstruction :=
  {| action := "remove"; components := None; componentIds := Some ids;
     updates := None; layout := None; animation := Some fadeOut |}.

Definition updateOf (us : list ComponentUpdate) : UIInstruction :=
  {| action := "update"; components := None; componentIds := None;
     updates := Some us; layout := None; animation := None |}.

(** A run through every kind of instruction: an Add with one
    unregistered type, an Update, a Reorganize, an animated Remove naming
    an unknown id, a second Add, and a Remove without animation. *)
Definition demoCalls : list (Env * UIInstruction) :=
  [ (env0, addOf [component "grid-1" "ProductGrid";
                  component "filters-1" "FilterPanel";
                  component "unknown-1" "Nope"]);
    (env0, updateOf [ {| u_id := "grid-1";
                         u_props := Some [("page", VNum 2)];
                         u_position := None |} ]);
    (env0, reorganizeTo "two-column");
    (env0, removeAnimated ["grid-1"; "ghost"]);
    (env0, addOf [component "grid-2" "ProductGrid"]);
    (env0, removeOf ["filters-1"]) ].

(** The active map is well keyed when its keys are pairwise distinct and
    every component is stored under its own id. *)
Definition well_keyed m : Prop :=
  NoDup (keys m) /\ Forall (fun kv : string * ComponentState => idOf kv.2 = kv.1) m.

Definition keeps_well_keyed (s : Step) : Prop :=
  forall m, well_keyed m -> well_keyed (s m).

End EngineTerms.

Section RegistryExtraTerms.
Import ComponentRegistry.

Definition with_confidence (c : Q) (intent : Intent) : Intent :=
  {| type := type intent; confidence := c; entities := entities intent;
     context := context intent |}.

(** The layout [determineLayout] ends up choosing for each intent type. *)
Definition layoutOf (ty : string) : string :=
  if String.eqb ty "product_detail" then "full-width"
  else if String.eqb ty "product_browse" then "two-column"
  else if String.eqb ty "style_advice" || String.eqb ty "store_visit"
       then "default"
  else "centered".

(** The component names a manifest lists for an intent: the base names of
    its type, then the contextual names whose key is truthy in the
    intent's context; the conversation panel for a type without entry. *)
Definition expectedTypes (intent : Intent) : list string :=
  match Js.get (type intent) getIntentMapping with
  | Some config =>
      config_components config ++
      match contextual config, context intent with
      | Some entries, Some ctx =>
          concat (snd <$> List.filter
                    (fun entry : string * list string =>
                       Js.truthy (default Js.VUndefined (Js.get entry.1 ctx)))
                    entries)
      | _, _ => []
      end
  | None => ["ConversationPanel"]
  end.

(** Order and delay follow the index in the list: the delay is the
    double product of the index and 0.1. *)
Definition indexed (l : list ComponentInstance) : Prop :=
  forall i c, l !! i = Some c ->
    order (position c) = Z.of_nat i /\
    animationDelay c
    = Some (Double.mul (Double.of_nat i) (Double.lit (1 # 10))).

Definition stillClock : nat -> Z := fun _ => 1700000000000%Z.

(** Two registries that answer every read by key alike. *)
Definition sameReads (r1 r2 : t) : Prop :=
  forall k, get k r1 = get k r2 /\ has k r1 = has k r2 /\
            getMetadata k r1 = getMetadata k r2.

(** A browse request from a user with preferences and a taste for luxury:
    both contextual entries of the mapping apply. *)
Definition lavishBrowse : Intent :=
  {| type := "product_browse"; confidence := 9 # 10;
     entities := None;
     context := Some [("with_preferences", Js.VBool true);
                      ("luxury_focus", Js.VBool true)] |}.

(** A browse request at confidence 0, below the 0.7 its table entry
    declares, from a user with preferences. *)
Definition timidBrowse : Intent :=
  {| type := "product_browse"; confidence := 0;
     entities := None;
     context := Some [("with_preferences", Js.VBool true)] |}.

End RegistryExtraTerms.

Section MapperExtraTerms.
Import Js IntentMapper.

(** The instance [mergeInstructions] pushes for the definition [d] when
    the draft already holds [index] components. *)
Definition instantiate (o : Oracle) (analysis : IntentAnalysis) (index : nat)
    (d : ComponentDefinition) : ComponentInstance :=
  {| id := fresh_id o index (def_type d);
     ctype := def_type d;
     props := resolve_props (def_props d) analysis;
     position := def_position d;
     animationDelay := Some (Double.mul (Double.of_nat index) staggerUnit) |}.

(** The intent types whose rule tests no confidence. *)
Definition ungated (ty : string) : bool :=
  existsb (String.eqb ty) ["product_detail"; "style_advice"; "store_visit"].

(** What is left of the draft when only the urgency modifier matched. *)
Definition modifierOnly : UIInstruction :=
  {| ui_action := "add"; ui_components := []; ui_layout := "default";
     ui_animation := urgentAnimation;
     ui_props := Some [("priority", VStr "high");
                       ("showQuickActions", VBool true)] |}.

(** An urgent support request at confidence 0.9: no Add rule is about
    its type. *)
Definition urgentSupport : IntentAnalysis :=
  {| intent := {| type := "support"; confidence := 9 # 10;
                  originalMessage := "help me now" |};
     entities := [];
     context := [("urgency", VStr "high")] |}.

(** The filter names [extractFilters] can write, each with the entity it
    copies. *)
Definition filterSources : list (string * string) :=
  [("color", "color"); ("category", "product_type"); ("occasion", "occasion");
   ("priceRange", "price_range"); ("style", "style")].

Definition baseFilters : list string :=
  ["category"; "color"; "size"; "price"; "occasion"; "style"; "material"].

End MapperExtraTerms.

Section AnalyzerExtraTerms.
Import Js IntentMapper IntentAnalyzer.

(** A message of fewer than three words, once in lower case. *)
Definition isShort (toLowerCase : string -> string) (message : string) : bool :=
  (split_length (toLowerCase message) <? 3)%nat.

(** Whether the lower-case message contains an indicator of the
    analysis's intent type. *)
Definition mentionsIndicator (toLowerCase : string -> string)
    (analysis : IntentAnalysis) : bool :=
  match indicatorsFor (type (intent analysis)) with
  | Some indicators =>
      existsb (fun indicator =>
                 includes indicator
                          (toLowerCase (originalMessage (intent analysis))))
              indicators
  | None => false
  end.

(** [confidence > threshold] as the code evaluates it on the doubles the
    analyzer produces: the threshold literal is a double as well. *)
Definition above (confidence threshold : Q) : bool :=
  num_gt confidence (Double.lit threshold).

(** A stand-in for [toLowerCase] on messages already in lower case. *)
Definition sameCase : string -> string := fun s => s.

(** A two-word browse request the completion rates at 0.75. *)
Definition tersePlea : RawResult :=
  {| raw_intent := Some {| raw_type := Some "product_browse";
                           raw_confidence := Some (75 # 100)%Q |};
     raw_entities := None;
     raw_context := None |}.


End AnalyzerExtraTerms.

Section EngineExtraTerms.
Import Js AssemblyEngine.
Implicit Types (m : Active) (k : string) (e : t).

(** [ids.includes(k)]. *)
Definition named (ids : list string) k : bool :=
  existsb (String.eqb k) ids.

(** The entries of a map whose key is not in [ids]. *)
Definition unnamed {V} (ids : list string) (m : list (string * V))
    : list (string * V) :=
  List.filter (fun kv => negb (named ids kv.1)) m.

(** The state an Add leaves for the component at index [j] of its batch. *)
Definition mountedAs (env : Env) (j : nat) (c : ComponentInstance) : ComponentState :=
  {| instance := c; status := mounted; mountedAt := date_now env j |}.

Definition isKnownAction (a : string) : bool :=
  existsb (String.eqb a) ["add"; "remove"; "update"; "reorganize"].

Definition isNamedLayout (l : option string) : bool :=
  is_key l "centered" || is_key l "two-column" || is_key l "grid".

End EngineExtraTerms.

(* ===================================================================== *)
(** ** Properties of binary64 rounding *)
(* ===================================================================== *)

Section DoubleFacts.
Import Double.
Local Open Scope Q_scope.
Local Open Scope float_scope.
Local Open Scope Q_scope.

Lemma pow2_pos e : 0 < pow2 e.
Proof. apply Qpower_0_lt. reflexivity. Qed.

Lemma pow2_plus a b : pow2 (a + b) == pow2 a * pow2 b.
Proof. apply Qpower_plus. discriminate. Qed.

Lemma pow2_le a b : (a <= b)%Z -> pow2 a <= pow2 b.
Proof. intros H. apply Qpower_le_compat_l; [exact H | discriminate]. Qed.

Lemma pow2_lt a b : (a < b)%Z -> pow2 a < pow2 b.
Proof. intros H. apply Qpower_lt_compat_l; [exact H | reflexivity]. Qed.

Lemma pow2_inject n : (0 <= n)%Z -> inject_Z (2 ^ n) == pow2 n.
Proof. intros H. unfold pow2. now rewrite Zpower_Qpower. Qed.

Lemma rne_bounds q :
  (Qfloor q <= rne q <= Qfloor q + 1)%Z.
Proof.
  unfold rne. destruct (Qcompare _ _); [destruct (Z.even _) | |]; lia.
Qed.


Lemma rne_le x y : x <= y -> (rne x <= rne y)%Z.
Proof.
  intros Hxy.
  pose proof (Qfloor_resp_le _ _ Hxy) as Hf.
  destruct (Z.eq_dec (Qfloor x) (Qfloor y)) as [He | Hne].
  - unfold rne. rewrite <- He.
    destruct (Qcompare_spec (x - inject_Z (Qfloor x)) (1 # 2)) as [Hx | Hx | Hx];
    destruct (Qcompare_spec (y - inject_Z (Qfloor x)) (1 # 2)) as [Hy | Hy | Hy];
      try (destruct (Z.even (Qfloor x))); try lia; exfalso; lra.
  - pose proof (rne_bounds x). pose proof (rne_bounds y). lia.
Qed.

Lemma rne_inject n : rne (inject_Z n) = n.
Proof.
  unfold rne. rewrite Qfloor_Z.
  destruct (Qcompare_spec (inject_Z n - inject_Z n) (1 # 2)) as [H | H | H];
    [exfalso; lra | reflexivity | exfalso; lra].
Qed.



Lemma ilog2_spec x : 0 < x -> pow2 (ilog2 x) <= x < pow2 (ilog2 x + 1).
Proof.
  intros Hx. destruct x as [n d].
  assert (Hn : (0 < n)%Z).
  { unfold Qlt in Hx. simpl in Hx. lia. }
  unfold ilog2. simpl Qnum. simpl Qden.
  set (a := Z.log2 n). set (b := Z.log2 (Z.pos d)).
  pose proof (Z.log2_spec n Hn) as [Ha1 Ha2]. fold a in Ha1, Ha2.
  pose proof (Z.log2_spec (Z.pos d) eq_refl) as [Hb1 Hb2]. fold b in Hb1, Hb2.
  assert (Ha0 : (0 <= a)%Z) by apply Z.log2_nonneg.
  assert (Hb0 : (0 <= b)%Z) by apply Z.log2_nonneg.
  assert (HA1 : pow2 a <= inject_Z n).
  { rewrite <- pow2_inject by exact Ha0. now rewrite <- Zle_Qle. }
  assert (HA2 : inject_Z n < pow2 (a + 1)).
  { rewrite <- pow2_inject by lia. now rewrite <- Zlt_Qlt. }
  assert (HB1 : pow2 b <= inject_Z (Z.pos d)).
  { rewrite <- pow2_inject by exact Hb0. now rewrite <- Zle_Qle. }
  assert (HB2 : inject_Z (Z.pos d) < pow2 (b + 1)).
  { rewrite <- pow2_inject by lia. now rewrite <- Zlt_Qlt. }
  assert (HX : (n # d) * inject_Z (Z.pos d) == inject_Z n).
  { rewrite Qmake_Qdiv. field. discriminate. }
  assert (HD : 0 < inject_Z (Z.pos d)) by reflexivity.
  pose proof (pow2_pos (a - b)) as Hk.
  pose proof (pow2_pos (a - b - 1)) as Hk1.
  pose proof (pow2_pos (a - b + 1)) as Hk2.
  pose proof (pow2_pos b) as Hpb. pose proof (pow2_pos (b + 1)) as Hpb1.
  assert (E1 : pow2 (a - b + 1) * pow2 b == pow2 (a + 1)).
  { rewrite <- pow2_plus. now replace (a - b + 1 + b)%Z with (a + 1)%Z by lia. }
  assert (E2 : pow2 (a - b - 1) * pow2 (b + 1) == pow2 a).
  { rewrite <- pow2_plus. now replace (a - b - 1 + (b + 1))%Z with a by lia. }
  destruct (Qle_bool (pow2 (a - b)) (n # d)) eqn:Hc.
  - apply Qle_bool_iff in Hc. split; [exact Hc |].
    apply Qnot_le_lt. intros Hge.
    assert (pow2 (a - b + 1) * inject_Z (Z.pos d) <= (n # d) * inject_Z (Z.pos d)).
    { apply Qmult_le_compat_r; [exact Hge | now apply Qlt_le_weak]. }
    assert (pow2 (a - b + 1) * pow2 b <= pow2 (a - b + 1) * inject_Z (Z.pos d)).
    { rewrite !(Qmult_comm (pow2 (a - b + 1))).
      apply Qmult_le_compat_r; [exact HB1 | now apply Qlt_le_weak]. }
    lra.
  - assert (Hlt : n # d < pow2 (a - b)).
    { apply Qnot_le_lt. intros Hle. apply Qle_bool_iff in Hle. congruence. }
    replace (a - b - 1 + 1)%Z with (a - b)%Z by lia.
    split; [| exact Hlt].
    apply Qnot_lt_le. intros Hlt'.
    assert ((n # d) * inject_Z (Z.pos d) < pow2 (a - b - 1) * inject_Z (Z.pos d)).
    { apply Qmult_lt_compat_r; [exact HD | exact Hlt']. }
    assert (pow2 (a - b - 1) * inject_Z (Z.pos d) <= pow2 (a - b - 1) * pow2 (b + 1)).
    { rewrite !(Qmult_comm (pow2 (a - b - 1))).
      apply Qmult_le_compat_r; [now apply Qlt_le_weak | now apply Qlt_le_weak]. }
    lra.
Qed.

Lemma pow2_lt_inv a b : pow2 a < pow2 b -> (a < b)%Z.
Proof. intros H. apply (Qpower_lt_compat_l_inv 2); [exact H | reflexivity]. Qed.

Lemma ilog2_le x y : 0 < x -> x <= y -> (ilog2 x <= ilog2 y)%Z.
Proof.
  intros Hx Hxy.
  pose proof (ilog2_spec x Hx) as [H1 _].
  assert (Hy : 0 < y) by lra.
  pose proof (ilog2_spec y Hy) as [_ H2].
  assert (H : pow2 (ilog2 x) < pow2 (ilog2 y + 1)) by lra.
  apply pow2_lt_inv in H. lia.
Qed.

Lemma ulp_exp_le x y : 0 < x -> x <= y -> (ulp_exp x <= ulp_exp y)%Z.
Proof.
  intros Hx Hxy. pose proof (ilog2_le x y Hx Hxy). unfold ulp_exp. lia.
Qed.

(** Scaled by its unit in the last place, a positive number is below 2^53. *)
Lemma scaled_lt x : 0 < x -> x / pow2 (ulp_exp x) < pow2 53.
Proof.
  intros Hx. pose proof (ilog2_spec x Hx) as [_ H].
  apply Qlt_shift_div_r; [apply pow2_pos |].
  rewrite <- pow2_plus.
  eapply Qlt_le_trans; [exact H |].
  apply pow2_le. unfold ulp_exp. lia.
Qed.

Lemma round_pos_le x y : 0 < x -> x <= y -> round_pos x <= round_pos y.
Proof.
  intros Hx Hxy. assert (Hy : 0 < y) by lra.
  pose proof (ulp_exp_le x y Hx Hxy) as He.
  unfold round_pos.
  set (ex := ulp_exp x) in *. set (ey := ulp_exp y) in *.
  pose proof (pow2_pos ex) as Hpx. pose proof (pow2_pos ey) as Hpy.
  destruct (Z.eq_dec ex ey) as [Heq | Hne].
  - rewrite <- Heq.
    apply Qmult_le_compat_r; [| now apply Qlt_le_weak].
    rewrite <- Zle_Qle. apply rne_le.
    apply Qle_shift_div_l; [exact Hpx |].
    unfold Qdiv. rewrite <- Qmult_assoc, (Qmult_comm (/ _)), Qmult_inv_r by lra.
    lra.
  - assert (Hlt : (ex < ey)%Z) by lia.
    (* round_pos x <= 2^(53+ex) <= 2^(52+ey) <= round_pos y *)
    assert (Hup : inject_Z (rne (x / pow2 ex)) <= pow2 53).
    { rewrite <- (pow2_inject 53) by lia. rewrite <- Zle_Qle.
      rewrite <- (rne_inject (2 ^ 53)). apply rne_le.
      rewrite pow2_inject by lia. apply Qlt_le_weak, scaled_lt, Hx. }
    assert (Hey : ey = (ilog2 y - 52)%Z).
    { subst ex ey. unfold ulp_exp in *. lia. }
    assert (Hlo : pow2 52 <= inject_Z (rne (y / pow2 ey))).
    { rewrite <- (pow2_inject 52) by lia. rewrite <- Zle_Qle.
      rewrite <- (rne_inject (2 ^ 52)) at 1. apply rne_le.
      rewrite pow2_inject by lia.
      apply Qle_shift_div_l; [exact Hpy |].
      rewrite <- pow2_plus. rewrite Hey.
      replace (52 + (ilog2 y - 52))%Z with (ilog2 y) by lia.
      apply ilog2_spec, Hy. }
    apply Qle_trans with (pow2 53 * pow2 ex).
    { apply Qmult_le_compat_r; [exact Hup | now apply Qlt_le_weak]. }
    apply Qle_trans with (pow2 52 * pow2 ey).
    { rewrite <- !pow2_plus. apply pow2_le. lia. }
    apply Qmult_le_compat_r; [exact Hlo | now apply Qlt_le_weak].
Qed.

Lemma round_pos_nonneg x : 0 < x -> 0 <= round_pos x.
Proof.
  intros Hx. unfold round_pos.
  apply Qmult_le_0_compat; [| apply Qlt_le_weak, pow2_pos].
  change 0 with (inject_Z 0). rewrite <- Zle_Qle.
  rewrite <- (rne_inject 0). apply rne_le.
  apply Qle_shift_div_l; [apply pow2_pos |].
  change (inject_Z 0) with 0. lra.
Qed.

(** Rounding reads its argument up to equality of rationals. *)
Lemma round_comp x y : x == y -> round x = round y.
Proof. intros H. unfold round. now rewrite (Qred_complete _ _ H). Qed.

Lemma round_le x y : x <= y -> round x <= round y.
Proof.
  intros Hxy. unfold round.
  pose proof (Qred_correct x) as Ex. pose proof (Qred_correct y) as Ey.
  set (x' := Qred x) in *. set (y' := Qred y) in *.
  assert (Hxy' : x' <= y') by lra.
  destruct (Qcompare_spec x' 0) as [Hx | Hx | Hx];
  destruct (Qcompare_spec y' 0) as [Hy | Hy | Hy];
    rewrite ?Qred_correct; try (exfalso; lra).
  - lra.
  - apply round_pos_nonneg, Hy.
  - assert (0 <= round_pos (- x')) by (apply round_pos_nonneg; lra). lra.
  - assert (round_pos (- y') <= round_pos (- x'))
      by (apply round_pos_le; lra). lra.
  - assert (0 <= round_pos (- x')) by (apply round_pos_nonneg; lra).
    assert (0 <= round_pos y') by (apply round_pos_nonneg; lra). lra.
  - apply round_pos_le; [exact Hx | exact Hxy'].
Qed.

Lemma round_0 : round 0 = 0.
Proof. reflexivity. Qed.

Lemma round_nonneg x : 0 <= x -> 0 <= round x.
Proof. intros H. rewrite <- round_0 at 1. unfold Qle. apply round_le, H. Qed.





Lemma mul_le_l a a' b : 0 <= b -> a <= a' -> mul a b <= mul a' b.
Proof.
  intros Hb Ha. unfold mul. apply round_le.
  apply Qmult_le_compat_r; [exact Ha | exact Hb].
Qed.

Lemma mul_nonneg a b : 0 <= a -> 0 <= b -> 0 <= mul a b.
Proof.
  intros Ha Hb. unfold mul. apply round_nonneg.
  now apply Qmult_le_0_compat.
Qed.

(** On the literals and products of the embedded code, the rounding
    above gives the values of the kernel's binary64 arithmetic. *)
Example agrees_with_binary64 :
  of_float 0.1 = Some (lit (1 # 10)) /\
  of_float 0.3 = Some (lit (3 # 10)) /\
  of_float 0.6 = Some (lit (6 # 10)) /\
  of_float 0.8 = Some (lit (8 # 10)) /\
  of_float 0.95 = Some (lit (95 # 100)) /\
  of_float 1.2 = Some (lit (12 # 10)) /\
  of_float (2 * 0.1) = Some (mul (of_nat 2) (lit (1 # 10))) /\
  of_float (3 * 0.1) = Some (mul (of_nat 3) (lit (1 # 10))) /\
  of_float (5 * 0.1 + 0.1) = Some (add (mul (of_nat 5) (lit (1 # 10))) (lit (1 # 10))) /\
  of_float (6 * 0.1) = Some (mul (of_nat 6) (lit (1 # 10))) /\
  of_float (3 * 0.1 - 2 * 0.1)
  = Some (sub (mul (of_nat 3) (lit (1 # 10))) (mul (of_nat 2) (lit (1 # 10)))) /\
  of_float (0.75 * 0.8) = Some (mul (lit (75 # 100)) (lit (8 # 10))) /\
  of_float (0.9 * 1.2) = Some (mul (lit (9 # 10)) (lit (12 # 10))) /\
  of_float (0.95 * 0.8) = Some (mul (lit (95 # 100)) (lit (8 # 10))) /\
  of_float (1 * 0.8) = Some (mul 1 (lit (8 # 10))).
Proof. vm_compute. repeat split. Qed.

(** The fourth delay is 0.30000000000000004 and the seventh
    0.6000000000000001; neither is the double of the decimal. *)
Example delays_are_not_tenths :
  mul (of_nat 3) (lit (1 # 10)) = 1351079888211149 # 4503599627370496 /\
  lit (3 # 10) = 5404319552844595 # 18014398509481984 /\
  mul (of_nat 6) (lit (1 # 10)) = 1351079888211149 # 2251799813685248 /\
  lit (6 # 10) = 5404319552844595 # 9007199254740992.
Proof. vm_compute. repeat split. Qed.

End DoubleFacts.

(* ===================================================================== *)
(** ** Properties of the registry *)
(* ===================================================================== *)

Section RegistryProperties.
Import ComponentRegistry.

(** C3, as stated, fails: after ["ProductCard"] is registered with metadata
    and then registered again without, the new capability is paired with
    the metadata of the binding it replaced. *)
Lemma register_keeps_old_metadata :
  let r1 := register "ProductCard" cardV1 (Some cardMeta) empty in
  let r2 := register "ProductCard" cardV2 None r1 in
  get "ProductCard" r2 = Some cardV2 /\
  getMetadata "ProductCard" r2 = Some cardMeta.
Proof. split; reflexivity. Qed.

(** C3, amended: [register] binds [name] to the new capability (one binding
    per name, the old capability is gone); the metadata of [name] is
    replaced when metadata is passed and left as it was when it is omitted;
    every other name keeps its capability and metadata. *)
Theorem register_binding (name : string) (component : ComponentType)
    (md : option ComponentMetadata) (r : t) :
  let r' := register name component md r in
  get name r' = Some component /\
  has name r' = true /\
  getMetadata name r' =
    match md with Some m => Some m | None => getMetadata name r end /\
  (forall other, other <> name ->
     get other r' = get other r /\ getMetadata other r' = getMetadata other r).
Proof.
  unfold get, getMetadata, has, register; simpl.
  repeat split.
  - apply lookup_insert_eq.
  - apply bool_decide_eq_true. rewrite lookup_insert_eq. eauto.
  - destruct md; [apply lookup_insert_eq | reflexivity].
  - now apply lookup_insert_ne.
  - destruct md; [now apply lookup_insert_ne | reflexivity].
Qed.

End RegistryProperties.

(* ===================================================================== *)
(** ** Properties of the intent mapper *)
(* ===================================================================== *)

Section MapperProperties.
Import Js IntentMapper.

(** C1, as stated, fails: at confidence 0.75 the urgency modifier does not
    match (its condition asks for a confidence above 0.8), and the
    instruction keeps the browse rule's animation. *)
Lemma scenario_B_urgency_not_matched :
  evaluateRule urgency_modifier (scenarioB (75 # 100)) = false /\
  matchingRules (scenarioB (75 # 100)) = ["browse_rule"] /\
  ui_animation (mapToUIInstructions fixedOracle (scenarioB (75 # 100)))
    = browseAnimation.
Proof. repeat split; reflexivity. Qed.

(** C1, amended: for the browse intent tagged urgent, at any confidence
    above 0.6 the instruction has the browse rule's components and layout;
    the urgency override (duration 0.3, enter "instant") is applied exactly
    when the confidence is also above 0.8, and otherwise (as at 0.75) only
    the browse rule matches and its animation (enter "slideIn", duration
    0.5) stays. *)
Theorem scenario_B_by_confidence (o : Oracle) (c : Q) :
  num_gt c (6 # 10) = true ->
  let r := mapToUIInstructions o (scenarioB c) in
  ctype <$> ui_components r = ["ProductGrid"; "FilterPanel"] /\
  ui_layout r = "two-column" /\
  (if num_gt c (8 # 10)
   then matchingRules (scenarioB c) = ["browse_rule"; "urgency_modifier"] /\
        ui_animation r = urgentAnimation
   else matchingRules (scenarioB c) = ["browse_rule"] /\
        ui_animation r = browseAnimation).
Proof.
  intros Hbrowse.
  unfold mapToUIInstructions, matchingRules, initializeMappingRules,
    evaluateRule; simpl.
  rewrite Hbrowse; simpl.
  destruct (num_gt c (8 # 10)); simpl; repeat split; reflexivity.
Qed.

(** C1 at the confidence the scenario names, 0.75. *)
Lemma scenario_B_at_075 :
  num_gt (75 # 100) (6 # 10) = true /\
  let r := mapToUIInstructions fixedOracle (scenarioB (75 # 100)) in
  ctype <$> ui_components r = ["ProductGrid"; "FilterPanel"] /\
  ui_layout r = "two-column" /\
  matchingRules (scenarioB (75 # 100)) = ["browse_rule"] /\
  ui_animation r = browseAnimation.
Proof.
  split; [reflexivity |].
  exact (scenario_B_by_confidence fixedOracle (75 # 100) eq_refl).
Defined.

(** C5: when no rule matches, [mapToUIInstructions] returns the fallback
    instruction: one [HelpPanel] component, layout "centered", the 0.3s
    fade. Only the component's id depends on the clock. The returned
    instruction is not empty. *)
Theorem no_match_gives_fallback (o : Oracle) (analysis : IntentAnalysis) :
  List.filter (fun rule => evaluateRule rule analysis) initializeMappingRules = [] ->
  let r := mapToUIInstructions o analysis in
  r = getDefaultInstruction o /\
  ui_action r = "add" /\
  ctype <$> ui_components r = ["HelpPanel"] /\
  length (ui_components r) = 1%nat /\
  ui_layout r = "centered" /\
  ui_animation r = fallbackAnimation.
Proof.
  intros Hnone. unfold mapToUIInstructions. rewrite Hnone. simpl.
  repeat split; reflexivity.
Qed.

(** C5 on a support request, which no rule matches. *)
Lemma no_match_gives_fallback_support :
  let r := mapToUIInstructions fixedOracle supportIntent in
  r = getDefaultInstruction fixedOracle /\
  ui_action r = "add" /\
  ctype <$> ui_components r = ["HelpPanel"] /\
  length (ui_components r) = 1%nat /\
  ui_layout r = "centered" /\
  ui_animation r = fallbackAnimation.
Proof.
  exact (no_match_gives_fallback fixedOracle supportIntent eq_refl).
Defined.

(** *** Merging *)

Lemma push_component_length o analysis draft comp :
  length (push_component o analysis draft comp) = S (length draft).
Proof. unfold push_component. rewrite length_app. simpl. lia. Qed.










(** When some rule matches, the result is the merge of the matching
    rules, in table order. *)
Lemma mapToUIInstructions_merges (o : Oracle) (analysis : IntentAnalysis) :
  let matching := List.filter (fun rule => evaluateRule rule analysis)
                              initializeMappingRules in
  matching <> [] ->
  mapToUIInstructions o analysis = mergeInstructions o matching analysis.
Proof.
  cbv zeta. intros Hsome. unfold mapToUIInstructions.
  destruct (List.filter _ initializeMappingRules); [congruence | reflexivity].
Qed.

(** X25. The conditions of the five Add rules of the table test five
    different intent types: one analysis matches at most one of them. Two
    Add rules meet only in [mergeInstructions] itself. *)
Lemma add_rules_exclusive (analysis : IntentAnalysis) :
  (length (List.filter (fun rule => negb (is_modifier rule))
     (List.filter (fun rule => evaluateRule rule analysis)
                  initializeMappingRules)) <= 1)%nat.
Proof.
  destruct analysis as [[ty c msg] ents ctx].
  unfold initializeMappingRules, evaluateRule. simpl.
  destruct (String.eqb ty "greeting") eqn:E1,
           (String.eqb ty "product_browse") eqn:E2,
           (String.eqb ty "product_detail") eqn:E3,
           (String.eqb ty "style_advice") eqn:E4,
           (String.eqb ty "store_visit") eqn:E5;
    repeat match goal with
           | H : String.eqb _ _ = true |- _ => apply String.eqb_eq in H
           end;
    try congruence; simpl;
    repeat match goal with
           | |- context [if ?b then _ else _] => destruct b; simpl
           end; lia.
Qed.

End MapperProperties.

(* ===================================================================== *)
(** ** Facts about insertion-ordered maps *)
(* ===================================================================== *)

Section OrderedMapFacts.
Import Js.
Context {V : Type}.
Implicit Types (m : list (string * V)) (k : string).

Lemma eqb_refl' k : String.eqb k k = true.
Proof. apply String.eqb_refl. Qed.

Lemma eqb_ne k k' : k <> k' -> String.eqb k k' = false.
Proof. intros Hne. now apply String.eqb_neq. Qed.

Lemma get_set_eq k (v : V) m : get k (set k v m) = Some v.
Proof.
  induction m as [| [k' v'] m IH]; simpl.
  - now rewrite eqb_refl'.
  - destruct (String.eqb k k') eqn:E; simpl; rewrite E; auto.
Qed.

Lemma get_set_ne k k' (v : V) m : k <> k' -> get k' (set k v m) = get k' m.
Proof.
  intros Hne. induction m as [| [k0 v0] m IH]; simpl.
  - rewrite eqb_ne; auto.
  - destruct (String.eqb k k0) eqn:E; simpl.
    + apply String.eqb_eq in E. subst k0.
      rewrite eqb_ne by auto. reflexivity.
    + destruct (String.eqb k' k0); auto.
Qed.

Lemma get_adjust_eq (f : V -> V) k m : get k (adjust f k m) = f <$> get k m.
Proof.
  induction m as [| [k' v'] m IH]; simpl; [reflexivity |].
  destruct (String.eqb k k') eqn:E; simpl; rewrite E; auto.
Qed.

Lemma get_adjust_ne (f : V -> V) k k' m :
  k <> k' -> get k' (adjust f k m) = get k' m.
Proof.
  intros Hne. induction m as [| [k0 v0] m IH]; simpl; [reflexivity |].
  destruct (String.eqb k k0) eqn:E; simpl.
  - apply String.eqb_eq in E. subst k0. rewrite eqb_ne by auto. reflexivity.
  - destruct (String.eqb k' k0); auto.
Qed.

Lemma get_delete_eq k m : get k (delete k m) = None.
Proof.
  induction m as [| [k' v'] m IH]; simpl; [reflexivity |].
  destruct (String.eqb k k') eqn:E; simpl; [| rewrite E]; auto.
Qed.

Lemma get_delete_ne k k' m : k <> k' -> get k' (delete k m) = get k' m.
Proof.
  intros Hne. induction m as [| [k0 v0] m IH]; simpl; [reflexivity |].
  destruct (String.eqb k k0) eqn:E; simpl.
  - apply String.eqb_eq in E. subst k0. rewrite eqb_ne by auto. exact IH.
  - destruct (String.eqb k' k0); auto.
Qed.

Lemma keys_adjust (f : V -> V) k m : keys (adjust f k m) = keys m.
Proof.
  unfold keys. induction m as [| [k' v'] m IH]; simpl; [reflexivity |].
  destruct (String.eqb k k'); simpl; [reflexivity | f_equal; exact IH].
Qed.

Lemma length_adjust (f : V -> V) k m : length (adjust f k m) = length m.
Proof.
  induction m as [| [k' v'] m IH]; simpl; [reflexivity |].
  destruct (String.eqb k k'); simpl; [reflexivity | now rewrite IH].
Qed.

(** An absent key: [adjust] and [delete] leave the map as it is. *)
Lemma adjust_absent (f : V -> V) k m : get k m = None -> adjust f k m = m.
Proof.
  induction m as [| [k' v'] m IH]; simpl; [reflexivity |].
  destruct (String.eqb k k'); [discriminate |].
  intros Hn. now rewrite IH.
Qed.

Lemma delete_absent k m : get k m = None -> delete k m = m.
Proof.
  induction m as [| [k' v'] m IH]; simpl; [reflexivity |].
  destruct (String.eqb k k'); [discriminate |].
  intros Hn. now rewrite IH.
Qed.

Lemma has_false k m : has k m = false <-> get k m = None.
Proof. unfold has. destruct (get k m); split; congruence. Qed.

Lemma has_true k m : has k m = true <-> is_Some (get k m).
Proof.
  unfold has. destruct (get k m); split; try congruence; eauto.
  intros [x Hx]. discriminate.
Qed.

(** Two writes to the objects under different keys commute; of two
    writes under one key the second acts on the result of the first. *)
Lemma adjust_comm (f g : V -> V) k k' m :
  k <> k' -> adjust f k (adjust g k' m) = adjust g k' (adjust f k m).
Proof.
  intros Hne. induction m as [| [k0 v0] m IH]; simpl; [reflexivity |].
  destruct (String.eqb k' k0) eqn:E'; destruct (String.eqb k k0) eqn:E;
    simpl; rewrite ?E, ?E'; try reflexivity.
  - apply String.eqb_eq in E, E'. congruence.
  - now rewrite IH.
Qed.

Lemma adjust_adjust (f g : V -> V) k m :
  adjust g k (adjust f k m) = adjust (fun v => g (f v)) k m.
Proof.
  induction m as [| [k0 v0] m IH]; simpl; [reflexivity |].
  destruct (String.eqb k k0) eqn:E; simpl; rewrite E; [reflexivity |].
  now rewrite IH.
Qed.

Lemma adjust_ext (f g : V -> V) k m :
  (forall v, f v = g v) -> adjust f k m = adjust g k m.
Proof.
  intros Hfg. induction m as [| [k0 v0] m IH]; simpl; [reflexivity |].
  destruct (String.eqb k k0); [now rewrite Hfg | now rewrite IH].
Qed.

(** Reading a map built by [assign]: a key written by [b] reads as its
    last write. *)
Lemma get_assign_absent k (a b : list (string * V)) :
  k ∉ b.*1 -> get k (assign a b) = get k a.
Proof.
  unfold assign. revert a.
  induction b as [| [k0 v0] b IH]; intros a Hk; simpl; [reflexivity |].
  simpl in Hk. apply not_elem_of_cons in Hk as [Hne Hk].
  rewrite IH by exact Hk. apply get_set_ne. congruence.
Qed.

Lemma get_assign_written k (v : V) (a b : list (string * V)) :
  NoDup b.*1 -> (k, v) ∈ b -> get k (assign a b) = Some v.
Proof.
  unfold assign. revert a.
  induction b as [| [k0 v0] b IH]; intros a Hnd Hin; simpl.
  - now apply elem_of_nil in Hin.
  - simpl in Hnd. apply NoDup_cons in Hnd as [Hk0 Hnd].
    apply elem_of_cons in Hin as [Heq | Hin].
    + injection Heq as -> ->.
      change (get k0 (assign (set k0 v0 a) b) = Some v0).
      rewrite get_assign_absent by exact Hk0. apply get_set_eq.
    + now apply IH.
Qed.

Lemma assign_app (a b c : list (string * V)) :
  assign (assign a b) c = assign a (b ++ c).
Proof. unfold assign. now rewrite fold_left_app. Qed.

End OrderedMapFacts.

(* ===================================================================== *)
(** ** Properties of the assembly engine *)
(* ===================================================================== *)

Section EngineProperties.
Import Js AssemblyEngine.
Implicit Types (m : Active) (k : string) (e : t).

(** *** Subscription *)

(** C9: the engine keeps one callback. After [onUpdate(f)] then
    [onUpdate(g)] the stored callback is [g]; an instruction that is then
    processed to completion makes exactly one invocation, of [g], with the
    snapshot of the engine it leaves. An engine with no callback stored
    makes no invocation. *)
Theorem single_subscriber (env : Env) (i : UIInstruction) e (f g : Callback) :
  let e' := onUpdate g (onUpdate f e) in
  updateCallback e' = Some g /\
  match processInstruction env i e' with
  | Resolved e'' d => d = [(g, getState (snapshot_now env) e'')]
  | Rejected _ => True
  end /\
  (updateCallback e = None -> delivered_of (processInstruction env i e) = []).
Proof.
  simpl. split; [reflexivity |]. split.
  - unfold processInstruction. simpl.
    destruct (instruction_steps env i (activeComponents e)); [| exact I].
    reflexivity.
  - intros Hnone. unfold processInstruction.
    destruct (instruction_steps env i (activeComponents e)); [| reflexivity].
    simpl. unfold notifyUpdate. simpl. now rewrite Hnone.
Qed.

(** *** Update *)

Lemma run_app (a b : list Step) m : run (a ++ b) m = run b (run a m).
Proof. unfold run. apply fold_left_app. Qed.

Lemma updates_keys (updates : list ComponentUpdate) m :
  keys (run (updateComponents_steps updates) m) = keys m.
Proof.
  revert m. induction updates as [| u updates IH]; intros m; simpl.
  - reflexivity.
  - unfold updateComponents_steps in IH. rewrite IH.
    unfold update_one. apply keys_adjust.
Qed.

Lemma updates_frame (updates : list ComponentUpdate) m k c :
  get k m = Some c ->
  exists c', get k (run (updateComponents_steps updates) m) = Some c' /\
             frame_fields c c' /\
             (k ∉ u_id <$> updates -> c' = c).
Proof.
  revert m c. induction updates as [| u updates IH]; intros m c Hc; simpl.
  - exists c. unfold frame_fields. repeat split; auto.
  - destruct (decide (u_id u = k)) as [Heq | Hne].
    + destruct (IH (update_one u m) (with_instance (apply_update u) c))
        as (c' & Hget & Hfr & _).
      { unfold update_one. rewrite Heq, get_adjust_eq, Hc. reflexivity. }
      exists c'. split; [exact Hget |]. split.
      * unfold frame_fields in *. simpl in Hfr. exact Hfr.
      * intros Hnot. exfalso. apply Hnot. rewrite Heq. left.
    + destruct (IH (update_one u m) c) as (c' & Hget & Hfr & Hsame).
      { unfold update_one. rewrite get_adjust_ne by exact Hne. exact Hc. }
      exists c'. split; [exact Hget |]. split; [exact Hfr |].
      intros Hnot. apply Hsame.
      apply not_elem_of_cons in Hnot. apply Hnot.
Qed.

(** C10: one update record, applied to the active map, writes only the
    props (the old ones with the update's spread over them) and, when the
    update carries a position, the position fields of the component stored
    under its id. That component's id, type, status, mountedAt and
    animationDelay stay, every other component stays, and the keys of the
    map, in order, stay. The same frame holds for a whole batch. *)
Theorem update_frame (update : ComponentUpdate) (updates : list ComponentUpdate) m :
  let m' := update_one update m in
  keys m' = keys m /\
  (forall k, k <> u_id update -> get k m' = get k m) /\
  (forall c, get (u_id update) m = Some c ->
     exists c', get (u_id update) m' = Some c' /\
       props (instance c')
         = spread (props (instance c)) (default [] (u_props update)) /\
       position (instance c')
         = match u_position update with
           | Some p => spread_position (position (instance c)) p
           | None => position (instance c)
           end /\
       frame_fields c c') /\
  (get (u_id update) m = None -> m' = m) /\
  let mb := run (updateComponents_steps updates) m in
  keys mb = keys m /\
  (forall k c, get k m = Some c ->
     exists c', get k mb = Some c' /\ frame_fields c c' /\
                (k ∉ u_id <$> updates -> c' = c)).
Proof.
  simpl. unfold update_one. repeat split.
  - apply keys_adjust.
  - intros k Hne. apply get_adjust_ne. congruence.
  - intros c Hc. rewrite get_adjust_eq, Hc. simpl.
    eexists. split; [reflexivity |]. simpl.
    unfold frame_fields. simpl. repeat split.
  - apply adjust_absent.
  - apply updates_keys.
  - intros k c. apply updates_frame.
Qed.

(** *** Remove *)

Lemma mark_unmounting_adds_no_key id : adds_no_key (mark_unmounting id).
Proof.
  intros m k Hk. unfold mark_unmounting.
  destruct (decide (id = k)) as [-> | Hne].
  - now rewrite get_adjust_eq, Hk.
  - now rewrite get_adjust_ne.
Qed.

Lemma delete_adds_no_key id : adds_no_key (delete id : Step).
Proof.
  intros m k Hk. destruct (decide (id = k)) as [-> | Hne].
  - apply get_delete_eq.
  - now rewrite get_delete_ne.
Qed.

Lemma mark_unmounting_skips id : skips id (mark_unmounting id).
Proof. intros m Hm. now apply adjust_absent. Qed.

Lemma delete_skips id : skips id (delete id : Step).
Proof. intros m Hm. now apply delete_absent. Qed.

Lemma run_adds_no_key (steps : list Step) m k :
  Forall adds_no_key steps -> get k m = None -> get k (run steps m) = None.
Proof.
  intros Hst. revert m. induction Hst as [| s steps Hs _ IH]; intros m Hk.
  - exact Hk.
  - simpl. apply IH, Hs, Hk.
Qed.

Lemma run_skips (steps : list Step) id m :
  Forall (skips id) steps -> get id m = None -> run steps m = m.
Proof.
  intros Hst Hid. induction Hst as [| s steps Hs _ IH]; simpl.
  - reflexivity.
  - rewrite Hs by exact Hid. exact IH.
Qed.

Lemma run_concat_cons (F : string -> list Step) id ids m :
  run (concat (F <$> (id :: ids))) m = run (concat (F <$> ids)) (run (F id) m).
Proof. rewrite fmap_cons. simpl. apply run_app. Qed.

(** Ids that are not in the map can be dropped from a batch whose
    per-id steps skip absent ids and add no key. *)
Lemma run_skip (F : string -> list Step) (keep : string -> bool) ids m :
  (forall id, Forall adds_no_key (F id) /\ Forall (skips id) (F id)) ->
  (forall id, id ∈ ids -> keep id = false -> get id m = None) ->
  run (concat (F <$> ids)) m = run (concat (F <$> List.filter keep ids)) m.
Proof.
  intros HF. revert m. induction ids as [| id ids IH]; intros m Habs.
  - reflexivity.
  - rewrite run_concat_cons. simpl List.filter.
    destruct (keep id) eqn:Hk.
    + rewrite run_concat_cons. apply IH.
      intros id' Hin Hk'. apply run_adds_no_key; [apply HF |].
      apply Habs; [now right | exact Hk'].
    + rewrite (run_skips (F id) id).
      * apply IH. intros id' Hin Hk'. apply Habs; [now right | exact Hk'].
      * apply HF.
      * apply Habs; [left | exact Hk].
Qed.

Lemma concat_singletons {A B} (f : A -> B) (l : list A) :
  concat ((fun x => [f x]) <$> l) = f <$> l.
Proof. induction l as [| x l IH]; simpl; [reflexivity | f_equal; exact IH]. Qed.

Lemma filter_present_kept (keep : string -> bool) ids m :
  (forall id, id ∈ ids -> keep id = false -> get id m = None) ->
  List.filter (fun id => has id m) (List.filter keep ids)
  = List.filter (fun id => has id m) ids.
Proof.
  induction ids as [| id ids IH]; intros Habs; [reflexivity |].
  simpl. destruct (keep id) eqn:Hk; simpl.
  - destruct (has id m); [f_equal |]; apply IH;
      intros id' Hin; apply Habs; now right.
  - assert (Hn : has id m = false).
    { apply has_false, Habs; [left | exact Hk]. }
    rewrite Hn. apply IH. intros id' Hin; apply Habs; now right.
Qed.

Lemma removeComponents_adds_no_key (animationConfig : option AnimationConfig)
    ids m0 :
  Forall adds_no_key (removeComponents_steps animationConfig ids m0).
Proof.
  unfold removeComponents_steps. destruct animationConfig as [a |].
  - apply Forall_app. split.
    + induction ids; simpl; constructor; auto using mark_unmounting_adds_no_key.
    + induction (List.filter _ ids); simpl; constructor;
        auto using delete_adds_no_key.
  - induction ids; simpl; repeat constructor;
      auto using mark_unmounting_adds_no_key, delete_adds_no_key.
Qed.

(** Dropping from a Remove batch ids that are not in the map does not
    change what the batch does, with or without an exit animation. *)
Lemma remove_skip (animationConfig : option AnimationConfig)
    (keep : string -> bool) ids m :
  (forall id, id ∈ ids -> keep id = false -> get id m = None) ->
  run (removeComponents_steps animationConfig ids m) m
  = run (removeComponents_steps animationConfig (List.filter keep ids) m) m.
Proof.
  intros Habs. unfold removeComponents_steps.
  destruct animationConfig as [a |].
  - rewrite !run_app.
    rewrite (filter_present_kept keep ids m Habs).
    f_equal.
    pose proof (run_skip (fun id => [mark_unmounting id]) keep ids m) as H.
    rewrite !concat_singletons in H. apply H; [| exact Habs].
    intros id. split; repeat constructor;
      auto using mark_unmounting_adds_no_key, mark_unmounting_skips.
  - apply (run_skip (fun id => [mark_unmounting id; (delete id : Step)])
             keep ids m); [| exact Habs].
    intros id. split; repeat constructor;
      auto using mark_unmounting_adds_no_key, mark_unmounting_skips,
                 delete_adds_no_key, delete_skips.
Qed.

Lemma filter_none {A} (l : list A) : List.filter (fun _ => false) l = [].
Proof. induction l; simpl; auto. Qed.

Lemma remove_all_absent (animationConfig : option AnimationConfig) ids m :
  (forall id, id ∈ ids -> get id m = None) ->
  run (removeComponents_steps animationConfig ids m) m = m.
Proof.
  intros Habs.
  rewrite (remove_skip animationConfig (fun _ => false) ids m)
    by (intros; now apply Habs).
  rewrite filter_none.
  unfold removeComponents_steps. destruct animationConfig; reflexivity.
Qed.

(** C8: a Remove instruction that names an id [x] not in the active set
    resolves (no error) and leaves the engine exactly as the same
    instruction without [x] would: [x] stays absent, and nothing else
    differs. When none of the named ids is active, the active map, the
    component count, the layout and the snapshot are unchanged. *)
Theorem remove_absent_is_noop (env : Env) (i : UIInstruction)
    (ids : list string) (x : string) e :
  action i = "remove" ->
  componentIds i = Some ids ->
  get x (activeComponents e) = None ->
  let e' := engine_of (processInstruction env i e) in
  processInstruction env i e
    = Resolved e' (notifyUpdate (snapshot_now env) e') /\
  get x (activeComponents e') = None /\
  e' = engine_of (processInstruction env (with_componentIds (without x ids) i) e) /\
  ((forall id, id ∈ ids -> get id (activeComponents e) = None) ->
     activeComponents e' = activeComponents e /\
     length (activeComponents e') = length (activeComponents e) /\
     forall now, getState now e' = getState now e).
Proof.
  intros Hact Hids Hx. simpl.
  unfold processInstruction, instruction_steps. simpl.
  rewrite Hact, Hids. simpl.
  split; [reflexivity |]. split; [| split].
  - apply run_adds_no_key; [apply removeComponents_adds_no_key | exact Hx].
  - f_equal. apply remove_skip. intros id Hin Hk.
    apply negb_false_iff, String.eqb_eq in Hk. now subst id.
  - intros Habs.
    rewrite (remove_all_absent _ _ _ Habs).
    repeat split.
Qed.

(** C8 on an engine with two mounted components and the id "ghost". *)
Lemma remove_absent_is_noop_ghost :
  let e' := engine_of (processInstruction env0 (removeOf ["ghost"]) twoMounted) in
  processInstruction env0 (removeOf ["ghost"]) twoMounted
    = Resolved e' (notifyUpdate 2000%Z e') /\
  get "ghost" (activeComponents e') = None /\
  activeComponents e' = activeComponents twoMounted /\
  length (activeComponents e') = 2%nat.
Proof.
  destruct (remove_absent_is_noop env0 (removeOf ["ghost"]) ["ghost"] "ghost"
              twoMounted eq_refl eq_refl eq_refl) as (H1 & H2 & _ & H4).
  split; [exact H1 |]. split; [exact H2 |].
  split; reflexivity.
Defined.

(** *** Layout *)

Lemma imap_keys {A} (g : A -> string) (at_ : nat -> Position) (l : list A) :
  (imap (fun index c => (g c, at_ index)) l).*1 = g <$> l.
Proof.
  revert at_. induction l as [| x l IH]; intros at_; [reflexivity |].
  simpl. f_equal. apply (IH (fun n => at_ (S n))).
Qed.

Lemma filter_lookup_rank {A} (P : A -> bool) (l : list A) i c :
  l !! i = Some c -> P c = true ->
  List.filter P l !! length (List.filter P (take i l)) = Some c.
Proof.
  revert i. induction l as [| x l IH]; intros i Hi Hc.
  - rewrite lookup_nil in Hi. discriminate.
  - destruct i as [| i]; simpl in *.
    + injection Hi as ->. now rewrite Hc.
    + destruct (P x); simpl; now apply IH.
Qed.

Lemma filter_split_perm {A} (P : A -> bool) (l : list A) :
  (List.filter P l ++ List.filter (fun x => negb (P x)) l)%list ≡ₚ l.
Proof.
  induction l as [| x l IH]; [reflexivity |].
  simpl. destruct (P x); simpl.
  - now constructor.
  - rewrite <- Permutation_middle. now constructor.
Qed.

Lemma filter_ext' {A} (P Q : A -> bool) (l : list A) :
  (forall x, P x = Q x) -> List.filter P l = List.filter Q l.
Proof.
  intros HPQ. induction l as [| x l IH]; [reflexivity |].
  simpl. now rewrite HPQ, IH.
Qed.

Lemma rank_lt (c c' : ComponentState) (l : list ComponentState) i j :
  (i < j)%nat -> l !! i = Some c -> (rank c' i l < rank c' j l)%nat \/
                                    sameArea c' c = false.
Proof.
  intros Hij Hi. destruct (sameArea c' c) eqn:Hs; [left | now right].
  unfold rank.
  assert (Hj : take j l = (take i l ++ c :: take (j - S i) (drop (S i) l))%list).
  { rewrite <- (take_drop_middle l i c Hi) at 1.
    assert (Hlen : length (take i l) = i).
    { apply length_take_le. apply lookup_lt_Some in Hi. lia. }
    rewrite take_app_ge by lia. rewrite Hlen.
    replace (j - i)%nat with (S (j - S i)) by lia. reflexivity. }
  rewrite Hj, List.filter_app, length_app. simpl. rewrite Hs. simpl. lia.
Qed.

(** C6: under layout "two-column", with the ids of the list pairwise
    distinct, the position computed for the component at index [i] has
    area "sidebar" when its type is FilterPanel or NavigationPanel and
    area "main" otherwise, and its order is the number of components of
    the same area before it in the list; so among the components of one
    area, a later one in the list has a larger order. *)
Theorem two_column_positions (components : list ComponentState) (i : nat)
    (c : ComponentState) :
  NoDup (idOf <$> components) ->
  components !! i = Some c ->
  let positions := calculatePositions components (Some "two-column") in
  (isSidebar c = true <->
     type (instance c) = "FilterPanel" \/ type (instance c) = "NavigationPanel") /\
  get (idOf c) positions = Some (twoColumnAt c (rank c i components)) /\
  area (twoColumnAt c (rank c i components))
    = (if isSidebar c then "sidebar" else "main") /\
  order (twoColumnAt c (rank c i components))
    = Z.of_nat (rank c i components) /\
  (forall j c', (i < j)%nat -> components !! j = Some c' ->
     sameArea c c' = true ->
     get (idOf c') positions = Some (twoColumnAt c (rank c j components)) /\
     (rank c i components < rank c j components)%nat).
Proof.
  intros Hnd Hi. simpl.
  assert (Hpos : forall j d, components !! j = Some d ->
            get (idOf d) (calculatePositions components (Some "two-column"))
            = Some (twoColumnAt d (rank d j components))).
  { intros j d Hj. unfold calculatePositions. simpl. unfold setEach.
    rewrite assign_app. apply get_assign_written.
    - rewrite fmap_app, !imap_keys, <- fmap_app.
      change (fun c0 : ComponentState => id (instance c0)) with idOf.
      now rewrite filter_split_perm.
    - apply elem_of_app. unfold twoColumnAt, rank.
      destruct (isSidebar d) eqn:Hd.
      + rewrite (filter_ext' (sameArea d) isSidebar)
          by (intros x; unfold sameArea; rewrite Hd; now destruct (isSidebar x)).
        left. apply list_elem_of_lookup.
        exists (length (List.filter isSidebar (take j components))).
        now rewrite list_lookup_imap, (filter_lookup_rank _ _ _ _ Hj Hd).
      + rewrite (filter_ext' (sameArea d) (fun x => negb (isSidebar x)))
          by (intros x; unfold sameArea; rewrite Hd; now destruct (isSidebar x)).
        right. apply list_elem_of_lookup.
        exists (length (List.filter (fun x => negb (isSidebar x)) (take j components))).
        rewrite list_lookup_imap, (filter_lookup_rank _ _ _ _ Hj); [reflexivity |].
        now rewrite Hd. }
  split; [| split; [| split; [| split]]].
  - unfold isSidebar. simpl. rewrite orb_false_r, orb_true_iff, !String.eqb_eq.
    split; intros [H | H]; auto.
  - now apply Hpos.
  - unfold twoColumnAt. now destruct (isSidebar c).
  - unfold twoColumnAt. now destruct (isSidebar c).
  - intros j c' Hij Hj Hs. split.
    + rewrite (Hpos _ _ Hj). f_equal. unfold twoColumnAt, rank.
      unfold sameArea in Hs. apply eqb_prop in Hs. rewrite <- Hs.
      rewrite (filter_ext' (sameArea c') (sameArea c)); [reflexivity |].
      intros x. unfold sameArea. now rewrite Hs.
    + destruct (rank_lt c c components i j Hij Hi) as [Hlt | Hno]; [exact Hlt |].
      unfold sameArea in Hno. now rewrite eqb_reflx in Hno.
Qed.

(** C6 on a grid, a filter panel and a navigation panel. *)
Lemma two_column_positions_nav :
  let positions := calculatePositions threeStates (Some "two-column") in
  get "nav-1" positions = Some (sidebarAt 1) /\
  get "filters-1" positions = Some (sidebarAt 0) /\
  get "grid-1" positions = Some (mainAt 0).
Proof.
  assert (Hnd : NoDup (idOf <$> threeStates)).
  { apply (bool_decide_unpack (NoDup (idOf <$> threeStates))).
    vm_compute. exact I. }
  pose proof (two_column_positions threeStates 2
                (mountedState "nav-1" "NavigationPanel") Hnd eq_refl) as H.
  simpl in H. destruct H as (_ & Hnav & _).
  split; [exact Hnav |]. split; reflexivity.
Defined.

(** *** Reorganize *)

Lemma reorganize_steps_eq (newLayout : option string) m :
  reorganizeLayout_steps newLayout m
  = reposition <$> calculatePositions (values m) newLayout.
Proof. reflexivity. Qed.

Lemma reposition_shape entry m :
  shape <$> values (reposition entry m) = shape <$> values m.
Proof.
  unfold reposition, values. destruct entry as [k p]. simpl.
  induction m as [| [k' v'] m IH]; [reflexivity |].
  simpl. destruct (String.eqb k k'); simpl.
  - reflexivity.
  - f_equal. exact IH.
Qed.

Lemma run_reposition_shape entries m :
  shape <$> values (run (reposition <$> entries) m) = shape <$> values m.
Proof.
  revert m. induction entries as [| entry entries IH]; intros m.
  - reflexivity.
  - simpl. etransitivity; [apply IH | apply reposition_shape].
Qed.

Lemma imap_ids (at_ : nat -> Position) (l l' : list ComponentState) :
  idOf <$> l = idOf <$> l' ->
  imap (fun index c => (id (instance c), at_ index)) l
  = imap (fun index c => (id (instance c), at_ index)) l'.
Proof.
  revert at_ l'. induction l as [| x l IH]; intros at_ [| x' l'] Hids;
    try discriminate; [reflexivity |].
  simpl in Hids. injection Hids as Hx Hl.
  simpl. f_equal.
  - unfold idOf in Hx. now rewrite Hx.
  - apply (IH (fun n => at_ (S n))). exact Hl.
Qed.

Lemma shape_ids (l l' : list ComponentState) :
  shape <$> l = shape <$> l' -> idOf <$> l = idOf <$> l'.
Proof.
  revert l'. induction l as [| x l IH]; intros [| x' l'] Hs;
    try discriminate; [reflexivity |].
  simpl in Hs. injection Hs as Hid Hty Hl.
  simpl. f_equal; [exact Hid | now apply IH].
Qed.

Lemma shape_filter (sidebar : bool) (l l' : list ComponentState) :
  shape <$> l = shape <$> l' ->
  shape <$> List.filter (fun c => Bool.eqb sidebar (isSidebar c)) l
  = shape <$> List.filter (fun c => Bool.eqb sidebar (isSidebar c)) l'.
Proof.
  revert l'. induction l as [| x l IH]; intros [| x' l'] Hs;
    try discriminate; [reflexivity |].
  simpl in Hs. injection Hs as Hid Hty Hl.
  simpl. unfold isSidebar at 1 3. rewrite Hty.
  fold (isSidebar x').
  destruct (Bool.eqb sidebar (isSidebar x')); simpl.
  - f_equal; [unfold shape; now rewrite Hid, Hty | now apply IH].
  - now apply IH.
Qed.

(** The positions depend on the ids and types of the components only. *)
Lemma calculatePositions_shape (l l' : list ComponentState)
    (layout : option string) :
  shape <$> l = shape <$> l' ->
  calculatePositions l layout = calculatePositions l' layout.
Proof.
  intros Hs. unfold calculatePositions, setEach.
  pose proof (shape_ids _ _ Hs) as Hids.
  destruct (is_key layout "centered"); [now rewrite (imap_ids _ _ _ Hids) |].
  destruct (is_key layout "two-column").
  - rewrite (filter_ext' isSidebar (fun c => Bool.eqb true (isSidebar c)))
      by (intros x; now destruct (isSidebar x)).
    rewrite (filter_ext' (fun c => negb (isSidebar c))
               (fun c => Bool.eqb false (isSidebar c)))
      by (intros x; now destruct (isSidebar x)).
    rewrite (imap_ids sidebarAt _ _ (shape_ids _ _ (shape_filter true _ _ Hs))).
    rewrite (imap_ids mainAt _ _ (shape_ids _ _ (shape_filter false _ _ Hs))).
    rewrite <- (filter_ext' isSidebar (fun c => Bool.eqb true (isSidebar c)))
      by (intros x; now destruct (isSidebar x)).
    rewrite <- (filter_ext' (fun c => negb (isSidebar c))
               (fun c => Bool.eqb false (isSidebar c)))
      by (intros x; now destruct (isSidebar x)).
    reflexivity.
  - destruct (is_key layout "grid"); now rewrite (imap_ids _ _ _ Hids).
Qed.

(** A later write of a position under the same key makes an earlier one
    invisible; writes under different keys commute. *)
Lemma reposition_absorbs entry entry' m :
  entry.1 = entry'.1 ->
  reposition entry' (reposition entry m) = reposition entry' m.
Proof.
  intros Hk. unfold reposition. rewrite Hk, adjust_adjust.
  apply adjust_ext. now intros [].
Qed.

Lemma reposition_comm entry entry' m :
  entry.1 <> entry'.1 ->
  reposition entry' (reposition entry m) = reposition entry (reposition entry' m).
Proof. intros Hk. unfold reposition. apply adjust_comm. congruence. Qed.

Lemma reposition_through entries entry m :
  reposition entry (run (reposition <$> entries) (reposition entry m))
  = reposition entry (run (reposition <$> entries) m).
Proof.
  revert m. induction entries as [| g entries IH]; intros m; simpl.
  - now apply reposition_absorbs.
  - destruct (decide (entry.1 = g.1)) as [Heq | Hne].
    + now rewrite reposition_absorbs.
    + rewrite <- (reposition_comm g entry) by congruence. apply IH.
Qed.

Lemma run_reposition_idempotent entries m :
  run (reposition <$> entries) (run (reposition <$> entries) m)
  = run (reposition <$> entries) m.
Proof.
  induction entries as [| entry entries IH] using rev_ind.
  - reflexivity.
  - rewrite fmap_app. simpl. rewrite !run_app. simpl.
    rewrite reposition_through. now rewrite IH.
Qed.

(** C7: two Reorganize instructions in a row with the same layout key
    both resolve, and the second leaves the engine as the first left it:
    the same components (ids, types, props, statuses, positions, in the
    same order) and the same layout. The snapshots differ in the timestamp
    at most. *)
Theorem reorganize_twice (env1 env2 : Env) (i1 i2 : UIInstruction) e :
  action i1 = "reorganize" ->
  action i2 = "reorganize" ->
  layout i1 = layout i2 ->
  let e1 := engine_of (processInstruction env1 i1 e) in
  let e2 := engine_of (processInstruction env2 i2 e1) in
  processInstruction env1 i1 e
    = Resolved e1 (notifyUpdate (snapshot_now env1) e1) /\
  processInstruction env2 i2 e1
    = Resolved e2 (notifyUpdate (snapshot_now env2) e2) /\
  e2 = e1 /\
  currentLayout e1 = layout i1 /\
  s_components (getState (snapshot_now env2) e2)
    = s_components (getState (snapshot_now env1) e1) /\
  s_layout (getState (snapshot_now env2) e2)
    = s_layout (getState (snapshot_now env1) e1).
Proof.
  intros Ha1 Ha2 Hl. simpl.
  unfold processInstruction, instruction_steps. rewrite Ha1, Ha2. simpl.
  rewrite !reorganize_steps_eq.
  assert (Hpos :
    calculatePositions
      (values (run (reposition <$> calculatePositions
                      (values (activeComponents e)) (layout i1))
                   (activeComponents e))) (layout i2)
    = calculatePositions (values (activeComponents e)) (layout i1)).
  { rewrite <- Hl. apply calculatePositions_shape, run_reposition_shape. }
  rewrite Hpos, run_reposition_idempotent, <- Hl.
  repeat split.
Qed.

(** C7 on an engine with two mounted components, layout "two-column". *)
Lemma reorganize_twice_two_column :
  let i := reorganizeTo "two-column" in
  let e1 := engine_of (processInstruction env0 i twoMounted) in
  let e2 := engine_of (processInstruction env0 i e1) in
  e2 = e1 /\ currentLayout e1 = Some "two-column" /\
  s_components (getState 2000 e2) = s_components (getState 2000 e1).
Proof.
  destruct (reorganize_twice env0 env0 (reorganizeTo "two-column")
              (reorganizeTo "two-column") twoMounted eq_refl eq_refl eq_refl)
    as (_ & _ & Heq & Hlay & Hcs & _).
  split; [exact Heq |]. split; [exact Hlay | exact Hcs].
Defined.

(** *** Lifecycle *)

Lemma statusOf_set k k' (st : ComponentState) m :
  statusOf k' (set k st m)
  = if decide (k = k') then Some (status st) else statusOf k' m.
Proof.
  unfold statusOf. destruct (decide (k = k')) as [-> | Hne].
  - now rewrite get_set_eq.
  - now rewrite get_set_ne.
Qed.

Lemma statusOf_with_status (s : Status) k k' m :
  statusOf k' (adjust (with_status s) k m)
  = if decide (k = k') then (fun _ => s) <$> statusOf k' m else statusOf k' m.
Proof.
  unfold statusOf. destruct (decide (k = k')) as [-> | Hne].
  - rewrite get_adjust_eq. now destruct (get k' m).
  - now rewrite get_adjust_ne.
Qed.

Lemma statusOf_with_instance (f : ComponentInstance -> ComponentInstance) k k' m :
  statusOf k' (adjust (with_instance f) k m) = statusOf k' m.
Proof.
  unfold statusOf. destruct (decide (k = k')) as [-> | Hne].
  - rewrite get_adjust_eq. now destruct (get k' m).
  - now rewrite get_adjust_ne.
Qed.

Lemma statusOf_delete k k' m :
  statusOf k' (delete k m) = if decide (k = k') then None else statusOf k' m.
Proof.
  unfold statusOf. destruct (decide (k = k')) as [-> | Hne].
  - now rewrite get_delete_eq.
  - now rewrite get_delete_ne.
Qed.

Lemma edge_refl (a : option Status) : edge a a = true.
Proof. now destruct a as [[] |]. Qed.

Lemma steps_obey_app (a b : list Step) m :
  steps_obey (a ++ b) m <-> steps_obey a m /\ steps_obey b (run a m).
Proof.
  revert m. induction a as [| s a IH]; intros m; simpl.
  - tauto.
  - rewrite IH. tauto.
Qed.

Lemma keeps_status_obey (steps : list Step) m :
  Forall keeps_status steps ->
  steps_obey steps m /\ forall k, statusOf k (run steps m) = statusOf k m.
Proof.
  intros Hst. revert m. induction Hst as [| s steps Hs _ IH]; intros m; simpl.
  - auto.
  - destruct (IH (s m)) as [Ho Heq]. repeat split.
    + intros k. rewrite Hs. apply edge_refl.
    + exact Ho.
    + intros k. now rewrite Heq, Hs.
Qed.

Lemma update_keeps_status (updates : list ComponentUpdate) :
  Forall keeps_status (updateComponents_steps updates).
Proof.
  induction updates as [| u updates IH]; simpl; constructor; [| exact IH].
  intros m k. apply statusOf_with_instance.
Qed.

Lemma reorganize_keeps_status (newLayout : option string) m0 :
  Forall keeps_status (reorganizeLayout_steps newLayout m0).
Proof.
  unfold reorganizeLayout_steps.
  induction (calculatePositions (values m0) newLayout) as [| p l IH];
    simpl; constructor; [| exact IH].
  intros m k. apply statusOf_with_instance.
Qed.

(** **** Add *)

Lemma add_one_status (env : Env) (j : nat) (c : ComponentInstance) m k :
  statusOf k (add_one env j c m)
  = if registered env c && bool_decide (id c = k) then Some mounting
    else statusOf k m.
Proof.
  unfold add_one, registered.
  destruct (ComponentRegistry.has (type c) (registry env)); simpl;
    [| reflexivity].
  rewrite statusOf_set. simpl.
  destruct (decide (id c = k)) as [Heq | Hne].
  - now rewrite bool_decide_eq_true_2.
  - now rewrite bool_decide_eq_false_2.
Qed.

Lemma insert_loop (env : Env) (cs : list ComponentInstance) (m0 : Active)
    (steps : list Step) m :
  (forall c, c ∈ cs -> registered env c = true -> statusOf (id c) m0 = None) ->
  Forall (fun s => exists j c, c ∈ cs /\ s = add_one env j c) steps ->
  inserting cs m0 m ->
  steps_obey steps m /\ inserting cs m0 (run steps m).
Proof.
  intros Hfresh Hst. revert m.
  induction Hst as [| s steps (j & c & Hc & ->) _ IH]; intros m Hin; simpl.
  - auto.
  - assert (Hin' : inserting cs m0 (add_one env j c m)).
    { intros k. rewrite add_one_status.
      destruct (registered env c) eqn:Hr; simpl; [| apply Hin].
      destruct (bool_decide (id c = k)) eqn:Hk; [| apply Hin].
      apply bool_decide_eq_true in Hk. subst k. right.
      repeat split; [now apply Hfresh |].
      apply list_elem_of_fmap. now exists c. }
    destruct (IH _ Hin') as [Ho Hfin]. repeat split; auto.
    intros k. rewrite add_one_status.
    destruct (registered env c) eqn:Hr; simpl; [| apply edge_refl].
    destruct (bool_decide (id c = k)) eqn:Hk; [| apply edge_refl].
    apply bool_decide_eq_true in Hk. subst k.
    destruct (Hin (id c)) as [Hsame | (_ & Hm & _)].
    + rewrite Hsame, (Hfresh c Hc Hr). reflexivity.
    + now rewrite Hm.
Qed.

Lemma mount_loop (cs : list ComponentInstance) m :
  mounting_within cs m ->
  steps_obey (map mark_mounted cs) m /\ resting (run (map mark_mounted cs) m).
Proof.
  revert m. induction cs as [| c cs IH]; intros m Hin; simpl.
  - split; [exact I |]. intros k.
    destruct (Hin k) as [H | [H | [_ H]]]; auto.
    now apply elem_of_nil in H.
  - assert (Hin' : mounting_within cs (mark_mounted c m)).
    { intros k. unfold mark_mounted. rewrite statusOf_with_status.
      destruct (decide (id c = k)) as [Heq | Hne].
      - destruct (statusOf k m); simpl; auto.
      - destruct (Hin k) as [H | [H | [H Hk]]]; auto.
        right. right. split; [exact H |].
        rewrite fmap_cons in Hk. apply elem_of_cons in Hk as [Hk | Hk];
          [congruence | exact Hk]. }
    destruct (IH _ Hin') as [Ho Hrest]. repeat split; auto.
    intros k. unfold mark_mounted. rewrite statusOf_with_status.
    destruct (decide (id c = k)) as [Heq | Hne]; [| apply edge_refl].
    destruct (Hin k) as [H | [H | [H _]]]; rewrite H; reflexivity.
Qed.

Lemma add_obeys (env : Env) (cs : list ComponentInstance) m :
  resting m ->
  (forall c, c ∈ cs -> registered env c = true -> statusOf (id c) m = None) ->
  steps_obey (addComponents_steps env cs) m /\
  resting (run (addComponents_steps env cs) m).
Proof.
  intros Hrest Hfresh. unfold addComponents_steps.
  destruct (insert_loop env cs m (imap (add_one env) cs) m Hfresh) as [Ho Hin].
  { apply Forall_forall. intros s Hs.
    apply elem_of_lookup_imap in Hs as (j & c & -> & Hj).
    exists j, c. split; [| reflexivity].
    now apply list_elem_of_lookup_2 in Hj. }
  { intros k. now left. }
  destruct (mount_loop cs (run (imap (add_one env) cs) m)) as [Ho' Hfin].
  { intros k. destruct (Hin k) as [Hsame | (_ & Hm & Hk)].
    - rewrite Hsame. destruct (Hrest k); auto.
    - auto. }
  rewrite steps_obey_app, run_app. auto.
Qed.

(** **** Remove *)

Lemma mark_then_delete_obeys (ids : list string) m :
  resting m ->
  let steps := concat (map (fun id => [mark_unmounting id; (delete id : Step)]) ids) in
  steps_obey steps m /\ resting (run steps m).
Proof.
  simpl. revert m. induction ids as [| id ids IH]; intros m Hrest; simpl.
  - auto.
  - assert (Hrest' : resting (delete id (mark_unmounting id m))).
    { intros k. rewrite statusOf_delete.
      destruct (decide (id = k)); [now left |].
      unfold mark_unmounting. rewrite statusOf_with_status.
      destruct (decide (id = k)); [contradiction | apply Hrest]. }
    destruct (IH _ Hrest') as [Ho Hfin]. repeat split; auto.
    + intros k. unfold mark_unmounting. rewrite statusOf_with_status.
      destruct (decide (id = k)); [| apply edge_refl].
      destruct (Hrest k) as [H | H]; rewrite H; reflexivity.
    + intros k. rewrite statusOf_delete.
      destruct (decide (id = k)); [| apply edge_refl].
      unfold mark_unmounting. rewrite statusOf_with_status.
      destruct (decide (id = k)); [| contradiction].
      destruct (Hrest k) as [H | H]; rewrite H; reflexivity.
Qed.

Lemma mark_loop (ids : list string) m :
  none_mounting m ->
  steps_obey (map mark_unmounting ids) m /\
  forall k, statusOf k (run (map mark_unmounting ids) m)
            = if decide (k ∈ ids) then (fun _ => unmounting) <$> statusOf k m
              else statusOf k m.
Proof.
  revert m. induction ids as [| id ids IH]; intros m Hnm; simpl.
  - split; [exact I |]. intros k.
    destruct (decide (k ∈ [])) as [H | _]; [| reflexivity].
    now apply elem_of_nil in H.
  - assert (Hnm' : none_mounting (mark_unmounting id m)).
    { intros k. unfold mark_unmounting. rewrite statusOf_with_status.
      destruct (decide (id = k)); [| apply Hnm].
      destruct (statusOf k m); simpl; congruence. }
    destruct (IH _ Hnm') as [Ho Hfin]. repeat split; auto.
    + intros k. unfold mark_unmounting. rewrite statusOf_with_status.
      destruct (decide (id = k)); [| apply edge_refl].
      specialize (Hnm k). destruct (statusOf k m) as [[] |]; simpl;
        congruence.
    + intros k. rewrite Hfin. unfold mark_unmounting.
      rewrite statusOf_with_status.
      destruct (decide (k ∈ ids)) as [Hin | Hout];
        destruct (decide (id = k)) as [Heq | Hne];
        destruct (decide (k ∈ id :: ids)) as [Hin' | Hout'];
        try reflexivity.
      * now destruct (statusOf k m).
      * exfalso. apply Hout'. now right.
      * exfalso. apply Hout'. now right.
      * exfalso. apply Hout'. subst. now left.
      * exfalso. apply elem_of_cons in Hin' as [H | H]; congruence.
Qed.

Lemma delete_loop (rest : list string) m :
  deleting rest m ->
  steps_obey (map (fun id => delete id : Step) rest) m /\
  resting (run (map (fun id => delete id : Step) rest) m).
Proof.
  revert m. induction rest as [| id rest IH]; intros m Hd; simpl.
  - split; [exact I |]. intros k.
    destruct (Hd k) as [H | [[H _] | [_ H]]]; auto.
    now apply elem_of_nil in H.
  - assert (Hd' : deleting rest (delete id m)).
    { intros k. rewrite statusOf_delete.
      destruct (decide (id = k)) as [Heq | Hne]; [now left |].
      destruct (Hd k) as [H | [[H Hk] | [H Hk]]]; auto.
      - right. left. split; [exact H |].
        intros Hin. apply Hk. now right.
      - right. right. split; [exact H |].
        apply elem_of_cons in Hk as [Hk | Hk]; [congruence | exact Hk]. }
    destruct (IH _ Hd') as [Ho Hfin]. repeat split; auto.
    intros k. rewrite statusOf_delete.
    destruct (decide (id = k)) as [Heq | Hne]; [| apply edge_refl].
    destruct (Hd k) as [H | [[H Hk] | [H Hk]]]; rewrite H; try reflexivity.
    exfalso. apply Hk. subst. now left.
Qed.

Lemma remove_obeys (animationConfig : option AnimationConfig)
    (ids : list string) m :
  resting m ->
  steps_obey (removeComponents_steps animationConfig ids m) m /\
  resting (run (removeComponents_steps animationConfig ids m) m).
Proof.
  intros Hrest. unfold removeComponents_steps.
  destruct animationConfig as [a |]; [| now apply mark_then_delete_obeys].
  destruct (mark_loop ids m) as [Ho Hst].
  { intros k. destruct (Hrest k) as [H | H]; rewrite H; congruence. }
  destruct (delete_loop (List.filter (fun id => has id m) ids)
              (run (map mark_unmounting ids) m)) as [Ho' Hfin].
  { intros k. rewrite Hst.
    destruct (decide (k ∈ ids)) as [Hin | Hout].
    - destruct (statusOf k m) eqn:Hk; simpl; [| now left].
      right. right. split; [reflexivity |].
      apply list_elem_of_In, filter_In. split; [now apply list_elem_of_In |].
      apply has_true. unfold statusOf in Hk.
      destruct (get k m); [eauto | discriminate].
    - destruct (Hrest k) as [H | H]; [now left |].
      right. left. split; [exact H |].
      intros Hin. apply Hout.
      apply list_elem_of_In, filter_In in Hin as [Hin _].
      now apply list_elem_of_In. }
  rewrite steps_obey_app, run_app. auto.
Qed.

(** **** Any instruction, any run *)

Lemma adds_fresh_spec (env : Env) (i : UIInstruction) cs m :
  adds_fresh env i m = true ->
  action i = "add" -> components i = Some cs ->
  forall c, c ∈ cs -> registered env c = true -> statusOf (id c) m = None.
Proof.
  unfold adds_fresh. intros Hf Ha Hc c Hin Hr.
  rewrite Ha, Hc in Hf. simpl in Hf.
  rewrite forallb_forall in Hf.
  specialize (Hf c (proj1 (list_elem_of_In _ _) Hin)).
  unfold registered in Hr. rewrite Hr in Hf. simpl in Hf.
  apply negb_true_iff, has_false in Hf. unfold statusOf. now rewrite Hf.
Qed.

Lemma instruction_obeys_resting (env : Env) (i : UIInstruction) e :
  resting (activeComponents e) ->
  adds_fresh env i (activeComponents e) = true ->
  instruction_obeys env i (activeComponents e) /\
  resting (activeComponents (engine_of (processInstruction env i e))).
Proof.
  intros Hrest Hfresh.
  unfold instruction_obeys, processInstruction, instruction_steps.
  destruct (String.eqb (action i) "add") eqn:Ha.
  { apply String.eqb_eq in Ha.
    destruct (components i) as [cs |] eqn:Hcs; simpl; [| auto].
    apply add_obeys; [exact Hrest |].
    now apply (adds_fresh_spec env i cs). }
  destruct (String.eqb (action i) "remove").
  { destruct (componentIds i) as [ids |]; simpl; [| auto].
    now apply remove_obeys. }
  destruct (String.eqb (action i) "update").
  { destruct (updates i) as [us |]; simpl; [| auto].
    destruct (keeps_status_obey _ (activeComponents e)
                (update_keeps_status us)) as [Ho Heq].
    split; [exact Ho |]. intros k. rewrite Heq. apply Hrest. }
  destruct (String.eqb (action i) "reorganize"); simpl.
  - destruct (keeps_status_obey _ (activeComponents e)
                (reorganize_keeps_status (layout i) (activeComponents e)))
      as [Ho Heq].
    split; [exact Ho |]. intros k. rewrite Heq. apply Hrest.
  - auto.
Qed.

Lemma calls_obey_resting (calls : list (Env * UIInstruction)) e :
  resting (activeComponents e) ->
  calls_fresh calls e = true ->
  calls_obey calls e /\ resting (activeComponents (run_calls calls e)).
Proof.
  revert e. induction calls as [| [env i] calls IH]; intros e Hrest Hf; simpl.
  - auto.
  - simpl in Hf. apply andb_true_iff in Hf as [Hf Hf'].
    destruct (instruction_obeys_resting env i e Hrest Hf) as [Ho Hrest'].
    destruct (IH _ Hrest' Hf') as [Hos Hfin].
    auto.
Qed.

(** C2, as stated, fails: the engine has no Pending (and no Updating)
    status. The first write of an Add takes the id from outside the map
    straight to [mounting], which is not a move of the specification's
    state machine; and an Update leaves a mounted component mounted. *)
Lemma add_inserts_as_mounting :
  let c := component "grid-1" "ProductGrid" in
  let m1 := add_one env0 0 c [] in
  let m2 := run (addComponents_steps env0 [c]) [] in
  statusOf "grid-1" [] = None /\
  statusOf "grid-1" m1 = Some mounting /\
  spec_edge (lifecycleOf (statusOf "grid-1" []))
            (lifecycleOf (statusOf "grid-1" m1)) = false /\
  statusOf "grid-1" m2 = Some mounted /\
  statusOf "grid-1"
    (update_one {| u_id := "grid-1"; u_props := Some [("page", VNum 2)];
                   u_position := None |} m2) = Some mounted.
Proof. repeat split; reflexivity. Qed.

(** C2, amended: in every run of awaited instructions on a new engine in
    which no Add inserts an id that is already active, every write moves
    every id's status along (absent) -> mounting -> mounted -> unmounting
    -> (deleted) or leaves it as it is, and after each instruction every
    active component is mounted. An Add inserts directly as mounting;
    Update and Reorganize leave the status alone. *)
Theorem lifecycle_edges (calls : list (Env * UIInstruction)) :
  calls_fresh calls new = true ->
  calls_obey calls new /\ resting (activeComponents (run_calls calls new)).
Proof.
  apply calls_obey_resting. intros k. now left.
Qed.

(** C2 on a run through every kind of instruction. *)
Lemma lifecycle_edges_demo :
  calls_fresh demoCalls new = true /\
  calls_obey demoCalls new /\
  resting (activeComponents (run_calls demoCalls new)) /\
  keys (activeComponents (run_calls demoCalls new)) = ["grid-2"].
Proof.
  destruct (lifecycle_edges demoCalls eq_refl) as [Ho Hr].
  split; [reflexivity |]. split; [exact Ho |]. split; [exact Hr | reflexivity].
Defined.

(** *** Unique ids *)

Lemma elem_of_keys_set {V} x k (v : V) (m : list (string * V)) :
  x ∈ keys (set k v m) <-> x = k \/ x ∈ keys m.
Proof.
  unfold keys. induction m as [| [k' v'] m IH]; simpl.
  - rewrite elem_of_cons. reflexivity.
  - destruct (String.eqb k k') eqn:E; simpl; rewrite !elem_of_cons.
    + apply String.eqb_eq in E. subst. tauto.
    + unfold fmap in IH. rewrite IH. tauto.
Qed.

Lemma elem_of_keys_delete {V} x k (m : list (string * V)) :
  x ∈ keys (delete k m) -> x ∈ keys m.
Proof.
  unfold keys. induction m as [| [k' v'] m IH]; simpl; [auto |].
  destruct (String.eqb k k'); simpl; rewrite !elem_of_cons; auto.
  intros [H | H]; auto.
Qed.

Lemma set_well_keyed k (v : ComponentState) m :
  idOf v = k -> well_keyed m -> well_keyed (set k v m).
Proof.
  intros Hid [Hnd Hall]. split.
  - clear Hall. unfold keys in *.
    induction m as [| [k' v'] m IH]; simpl.
    + apply NoDup_singleton.
    + simpl in Hnd. apply NoDup_cons in Hnd as [Hk' Hnd].
      destruct (String.eqb k k') eqn:E; simpl.
      * apply NoDup_cons. auto.
      * apply NoDup_cons. split; [| now apply IH].
        intros Hin. apply (elem_of_keys_set k' k v m) in Hin as [-> | Hin].
        -- now rewrite String.eqb_refl in E.
        -- now apply Hk'.
  - clear Hnd. induction Hall as [| [k' v'] m Hkv Hall IH]; simpl.
    + now repeat constructor.
    + destruct (String.eqb k k') eqn:E; constructor; auto.
      apply String.eqb_eq in E. simpl. congruence.
Qed.

Lemma adjust_well_keyed (f : ComponentState -> ComponentState) k m :
  (forall v, idOf (f v) = idOf v) -> well_keyed m -> well_keyed (adjust f k m).
Proof.
  intros Hf [Hnd Hall]. split; [now rewrite keys_adjust |].
  clear Hnd. induction Hall as [| [k' v'] m Hkv Hall IH]; simpl.
  - constructor.
  - destruct (String.eqb k k'); constructor; auto.
    simpl in *. now rewrite Hf.
Qed.

Lemma delete_well_keyed k m : well_keyed m -> well_keyed (delete k m).
Proof.
  intros [Hnd Hall]. split.
  - clear Hall. unfold keys in *.
    induction m as [| [k' v'] m IH]; simpl; [constructor |].
    simpl in Hnd. apply NoDup_cons in Hnd as [Hk' Hnd].
    destruct (String.eqb k k'); simpl; [now apply IH |].
    apply NoDup_cons. split; [| now apply IH].
    intros Hin. apply Hk'. now apply (elem_of_keys_delete k' k m).
  - clear Hnd. induction Hall as [| [k' v'] m Hkv Hall IH]; simpl.
    + constructor.
    + destruct (String.eqb k k'); [exact IH | now constructor].
Qed.

Lemma run_keeps_well_keyed (steps : list Step) m :
  Forall keeps_well_keyed steps -> well_keyed m -> well_keyed (run steps m).
Proof.
  intros Hst. revert m. induction Hst as [| s steps Hs _ IH]; intros m Hm.
  - exact Hm.
  - simpl. apply IH, Hs, Hm.
Qed.

Lemma instruction_keeps_well_keyed (env : Env) (i : UIInstruction) m steps :
  instruction_steps env i m = Some steps -> Forall keeps_well_keyed steps.
Proof.
  unfold instruction_steps.
  destruct (String.eqb (action i) "add").
  { destruct (components i) as [cs |]; simpl; [| discriminate].
    intros [= <-]. unfold addComponents_steps. apply Forall_app. split.
    - apply Forall_forall. intros s Hs.
      apply elem_of_lookup_imap in Hs as (j & c & -> & _).
      intros m' Hm'. unfold add_one.
      destruct (negb _); [exact Hm' | now apply set_well_keyed].
    - apply Forall_forall. intros s Hs.
      apply list_elem_of_In, in_map_iff in Hs as (c & <- & _).
      intros m' Hm'. now apply adjust_well_keyed. }
  destruct (String.eqb (action i) "remove").
  { destruct (componentIds i) as [ids |]; simpl; [| discriminate].
    intros [= <-]. unfold removeComponents_steps.
    destruct (animation i).
    - apply Forall_app. split; apply Forall_forall; intros s Hs;
        apply list_elem_of_In, in_map_iff in Hs as (c & <- & _);
        intros m' Hm'; [now apply adjust_well_keyed | now apply delete_well_keyed].
    - induction ids as [| id ids IH]; simpl; [constructor |].
      constructor; [| constructor; [| exact IH]].
      + intros m' Hm'. now apply adjust_well_keyed.
      + intros m' Hm'. now apply delete_well_keyed. }
  destruct (String.eqb (action i) "update").
  { destruct (updates i) as [us |]; simpl; [| discriminate].
    intros [= <-]. apply Forall_forall. intros s Hs.
    apply list_elem_of_In, in_map_iff in Hs as (c & <- & _).
    intros m' Hm'. now apply adjust_well_keyed. }
  destruct (String.eqb (action i) "reorganize"); intros [= <-].
  - apply Forall_forall. intros s Hs.
    apply list_elem_of_In, in_map_iff in Hs as (c & <- & _).
    intros m' Hm'. now apply adjust_well_keyed.
  - constructor.
Qed.

(** X10. In every run from a new engine the ids of the active components
    are pairwise distinct, and they are the keys of the map. *)
Lemma active_ids_distinct (calls : list (Env * UIInstruction)) :
  let m := activeComponents (run_calls calls new) in
  well_keyed m /\ idOf <$> values m = keys m /\ NoDup (idOf <$> values m).
Proof.
  simpl.
  assert (Hwk : well_keyed (activeComponents (run_calls calls new))).
  { assert (H0 : well_keyed (activeComponents new))
      by (split; constructor).
    revert H0. generalize new.
    induction calls as [| [env i] calls IH]; intros e He; [exact He |].
    simpl. apply IH. unfold apply_call, processInstruction. simpl.
    destruct (instruction_steps env i (activeComponents e)) as [steps |] eqn:Hs;
      simpl; [| exact He].
    apply run_keeps_well_keyed; [| exact He].
    now apply (instruction_keeps_well_keyed env i (activeComponents e)). }
  assert (Hids : idOf <$> values (activeComponents (run_calls calls new))
                 = keys (activeComponents (run_calls calls new))).
  { destruct Hwk as [_ Hall]. unfold values, keys.
    induction Hall as [| [k v] m Hkv _ IH]; [reflexivity |].
    simpl in *. f_equal; [exact Hkv | exact IH]. }
  split; [exact Hwk |]. split; [exact Hids |].
  rewrite Hids. apply Hwk.
Qed.

(** Why the run is asked to be fresh: an Add that names an id already
    active overwrites the stored state, and the status goes from mounted
    back to mounting. *)
Example readd_restarts_mounting :
  let c := component "grid-1" "ProductGrid" in
  statusOf "grid-1" (activeComponents twoMounted) = Some mounted /\
  statusOf "grid-1" (add_one env0 0 c (activeComponents twoMounted))
    = Some mounting /\
  adds_fresh env0 (addOf [c]) (activeComponents twoMounted) = false.
Proof. repeat split; reflexivity. Qed.

End EngineProperties.

(* ===================================================================== *)
(** ** Further properties of the assembly engine *)
(* ===================================================================== *)

Section EngineExtras.
Import Js AssemblyEngine.
Implicit Types (m : Active) (k : string) (e : t).

(** *** What Remove leaves *)

Lemma named_cons id ids k :
  named (id :: ids) k = String.eqb k id || named ids k.
Proof. reflexivity. Qed.

Lemma named_elem_of ids k : named ids k = true <-> k ∈ ids.
Proof.
  unfold named. rewrite existsb_exists. split.
  - intros (x & Hin & Hx). apply String.eqb_eq in Hx. subst.
    now apply list_elem_of_In.
  - intros Hin. exists k. split; [now apply list_elem_of_In |].
    apply String.eqb_refl.
Qed.

Lemma delete_as_filter {V} k (m : list (string * V)) :
  delete k m = List.filter (fun kv => negb (String.eqb k kv.1)) m.
Proof.
  induction m as [| [k' v'] m IH]; [reflexivity |].
  simpl. destruct (String.eqb k k'); simpl; now rewrite IH.
Qed.

Lemma filter_filter' {A} (P Q : A -> bool) (l : list A) :
  List.filter P (List.filter Q l) = List.filter (fun x => Q x && P x) l.
Proof.
  induction l as [| x l IH]; [reflexivity |].
  simpl. destruct (Q x); simpl; [destruct (P x) |]; now rewrite IH.
Qed.

Lemma unnamed_delete {V} id ids (m : list (string * V)) :
  unnamed ids (delete id m) = unnamed (id :: ids) m.
Proof.
  unfold unnamed. rewrite delete_as_filter, filter_filter'.
  apply filter_ext'. intros [k v]. simpl.
  rewrite (String.eqb_sym k id). now rewrite negb_orb.
Qed.

Lemma unnamed_adjust {V} (f : V -> V) ids k (m : list (string * V)) :
  named ids k = true -> unnamed ids (adjust f k m) = unnamed ids m.
Proof.
  intros Hk. unfold unnamed.
  induction m as [| [k' v'] m IH]; [reflexivity |].
  simpl. destruct (String.eqb k k') eqn:E; simpl.
  - apply String.eqb_eq in E. subst k'. now rewrite Hk.
  - now rewrite IH.
Qed.

Lemma unnamed_set {V} ids k (v : V) (m : list (string * V)) :
  named ids k = true -> unnamed ids (set k v m) = unnamed ids m.
Proof.
  intros Hk. unfold unnamed.
  induction m as [| [k' v'] m IH]; simpl.
  - now rewrite Hk.
  - destruct (String.eqb k k') eqn:E; simpl.
    + apply String.eqb_eq in E. subst k'. now rewrite Hk.
    + now rewrite IH.
Qed.

Lemma unnamed_nil {V} (m : list (string * V)) : unnamed [] m = m.
Proof.
  unfold unnamed. induction m as [| kv m IH]; [reflexivity |].
  simpl. f_equal. exact IH.
Qed.

Lemma run_deletes (ids : list string) m :
  run (map (fun id => delete id : Step) ids) m = unnamed ids m.
Proof.
  revert m. induction ids as [| id ids IH]; intros m; simpl.
  - now rewrite unnamed_nil.
  - rewrite IH. apply unnamed_delete.
Qed.

Lemma run_mark_then_delete (ids : list string) m :
  run (concat (map (fun id => [mark_unmounting id; (delete id : Step)]) ids)) m
  = unnamed ids m.
Proof.
  revert m. induction ids as [| id ids IH]; intros m; simpl.
  - now rewrite unnamed_nil.
  - rewrite IH, unnamed_delete. unfold mark_unmounting.
    apply unnamed_adjust. rewrite named_cons, String.eqb_refl. reflexivity.
Qed.

Lemma unnamed_marks (S ids : list string) m :
  (forall id, id ∈ ids -> named S id = true \/ get id m = None) ->
  unnamed S (run (map mark_unmounting ids) m) = unnamed S m.
Proof.
  revert m. induction ids as [| id ids IH]; intros m Hids; [reflexivity |].
  simpl. rewrite IH.
  - destruct (Hids id) as [Hn | Habs]; [now left | |].
    + now apply unnamed_adjust.
    + unfold mark_unmounting. now rewrite adjust_absent.
  - intros id' Hin. destruct (Hids id') as [Hn | Habs]; [now right | now left |].
    right. now apply mark_unmounting_adds_no_key.
Qed.

Lemma has_own_key {V} (m : list (string * V)) kv : kv ∈ m -> has kv.1 m = true.
Proof.
  intros Hin. apply has_true.
  induction m as [| [k' v'] m IH]; [now apply elem_of_nil in Hin |].
  simpl. destruct (String.eqb kv.1 k') eqn:E; [eauto |].
  apply elem_of_cons in Hin as [-> | Hin]; [| now apply IH].
  simpl in E. now rewrite String.eqb_refl in E.
Qed.

Lemma named_present ids m k :
  named (List.filter (fun id => has id m) ids) k = named ids k && has k m.
Proof.
  induction ids as [| id ids IH]; [reflexivity |].
  simpl. destruct (has id m) eqn:Hh; simpl; rewrite IH.
  - destruct (String.eqb k id) eqn:E; simpl; [| reflexivity].
    apply String.eqb_eq in E. subst. now rewrite Hh.
  - destruct (String.eqb k id) eqn:E; simpl; [| reflexivity].
    apply String.eqb_eq in E. subst. rewrite Hh. now rewrite andb_false_r.
Qed.

Lemma get_unnamed {V} ids k (m : list (string * V)) :
  get k (unnamed ids m) = if named ids k then None else get k m.
Proof.
  unfold unnamed. induction m as [| [k' v'] m IH]; simpl.
  - now destruct (named ids k).
  - destruct (named ids k') eqn:Hn; simpl.
    + destruct (String.eqb k k') eqn:E; [| exact IH].
      apply String.eqb_eq in E. subst k'. rewrite Hn in *. exact IH.
    + destruct (String.eqb k k') eqn:E; [| exact IH].
      apply String.eqb_eq in E. subst k'. now rewrite Hn.
Qed.

Lemma remove_closed_form (animationConfig : option AnimationConfig)
    (ids : list string) m :
  run (removeComponents_steps animationConfig ids m) m = unnamed ids m.
Proof.
  unfold removeComponents_steps. destruct animationConfig as [a |];
    [| apply run_mark_then_delete].
  rewrite run_app, run_deletes, unnamed_marks.
  - unfold unnamed. apply filter_ext_in. intros kv Hin.
    rewrite named_present.
    rewrite (has_own_key m kv (proj2 (list_elem_of_In _ _) Hin)).
    now rewrite andb_true_r.
  - intros id Hin. rewrite named_present.
    destruct (has id m) eqn:Hh.
    + left. rewrite andb_true_r. now apply named_elem_of.
    + right. now apply has_false.
Qed.

(** X1. A Remove leaves exactly the entries whose id it does not name, in
    their order and unchanged, on both paths of [removeComponents]. *)
Theorem remove_leaves_unnamed (animationConfig : option AnimationConfig)
    (ids : list string) m :
  let m' := run (removeComponents_steps animationConfig ids m) m in
  m' = unnamed ids m /\
  (forall k, k ∈ ids -> get k m' = None) /\
  (forall k, k ∉ ids -> get k m' = get k m).
Proof.
  simpl. rewrite remove_closed_form. split; [reflexivity |]. split.
  - intros k Hk. apply named_elem_of in Hk. now rewrite get_unnamed, Hk.
  - intros k Hk. rewrite get_unnamed.
    destruct (named ids k) eqn:Hn; [| reflexivity].
    apply named_elem_of in Hn. contradiction.
Qed.

(** X2. [clear()] empties the active set and keeps the layout key and the
    subscriber. *)
Theorem clear_empties e :
  activeComponents (clear e) = [] /\
  currentLayout (clear e) = currentLayout e /\
  updateCallback (clear e) = updateCallback e /\
  s_components (getState 0 (clear e)) = [].
Proof.
  assert (H : activeComponents (clear e) = []).
  { unfold clear. simpl. rewrite run_app, run_deletes, unnamed_marks.
    - unfold unnamed.
      rewrite (filter_ext_in _ (fun _ => false)); [apply filter_none |].
      intros kv Hin. rewrite named_present.
      rewrite (has_own_key _ kv (proj2 (list_elem_of_In _ _) Hin)).
      rewrite andb_true_r. apply negb_false_iff, named_elem_of.
      unfold keys. apply list_elem_of_fmap. exists kv. split; [reflexivity |].
      exact (proj2 (list_elem_of_In _ _) Hin).
    - intros id Hin. rewrite named_present.
      destruct (has id (activeComponents e)) eqn:Hh.
      + left. rewrite andb_true_r. now apply named_elem_of.
      + right. now apply has_false. }
  repeat split; try assumption.
  unfold getState. simpl. unfold values. simpl in H. now rewrite H.
Qed.

(** *** What Add leaves *)

Lemma insert_loop_other (env : Env) (cs : list ComponentInstance) m k :
  (forall c, c ∈ cs -> registered env c = true -> id c <> k) ->
  get k (run (imap (add_one env) cs) m) = get k m.
Proof.
  induction cs as [| x cs IH] using rev_ind; intros Hk; [reflexivity |].
  rewrite imap_app, run_app. simpl.
  unfold add_one at 1.
  destruct (negb (ComponentRegistry.has (type x) (registry env))) eqn:Hr.
  - apply IH. intros c Hc. apply Hk. apply elem_of_app. now left.
  - rewrite get_set_ne.
    + apply IH. intros c Hc. apply Hk. apply elem_of_app. now left.
    + apply Hk; [apply elem_of_app; right; now left |].
      unfold registered. now apply negb_false_iff in Hr.
Qed.

Lemma insert_loop_get (env : Env) (cs : list ComponentInstance) m j c :
  NoDup (id <$> cs) -> cs !! j = Some c -> registered env c = true ->
  get (id c) (run (imap (add_one env) cs) m)
  = Some {| instance := c; status := mounting; mountedAt := date_now env j |}.
Proof.
  revert j c. induction cs as [| x cs IH] using rev_ind; intros j c Hnd Hj Hr.
  - rewrite lookup_nil in Hj. discriminate.
  - rewrite fmap_app in Hnd. apply NoDup_app in Hnd as (Hnd & Hx & _).
    rewrite imap_app, run_app. simpl.
    destruct (decide (j < length cs)%nat) as [Hlt | Hge].
    + rewrite lookup_app_l in Hj by exact Hlt.
      assert (Hne : id x <> id c).
      { intros Heq. apply (Hx (id c)).
        - apply list_elem_of_fmap. exists c. split; [reflexivity |].
          now apply list_elem_of_lookup_2 in Hj.
        - rewrite <- Heq. simpl. now left. }
      unfold add_one at 1.
      destruct (negb (ComponentRegistry.has (type x) (registry env)));
        [| rewrite get_set_ne by exact Hne]; now apply IH.
    + rewrite lookup_app_r in Hj by lia.
      destruct (j - length cs)%nat as [| n] eqn:Hn; [| discriminate].
      simpl in Hj. injection Hj as ->.
      assert (Hj' : j = length cs) by lia. subst j.
      unfold add_one at 1. unfold registered in Hr. rewrite Hr. simpl.
      rewrite get_set_eq. now rewrite Nat.add_0_r.
Qed.

Lemma mount_loop_get (cs : list ComponentInstance) m k :
  get k (run (map mark_mounted cs) m)
  = if named (id <$> cs) k then with_status mounted <$> get k m else get k m.
Proof.
  revert m. induction cs as [| c cs IH]; intros m; [reflexivity |].
  simpl. rewrite IH. unfold mark_mounted.
  destruct (String.eqb k (id c)) eqn:E; simpl.
  - apply String.eqb_eq in E. subst k. rewrite get_adjust_eq.
    destruct (named _ (id c)); [| reflexivity].
    now destruct (get (id c) m).
  - apply String.eqb_neq in E. rewrite get_adjust_ne by congruence.
    reflexivity.
Qed.

(** X3. An Add batch with pairwise distinct ids leaves every component of
    a registered type in the active set, mounted and stamped with the
    clock reading of its turn; a component of an unregistered type is not
    inserted (what was stored under its id, if anything, is only marked
    mounted); ids outside the batch keep their entries. *)
Theorem add_outcome (env : Env) (cs : list ComponentInstance) m :
  NoDup (id <$> cs) ->
  let m' := run (addComponents_steps env cs) m in
  (forall j c, cs !! j = Some c -> registered env c = true ->
     get (id c) m' = Some (mountedAs env j c)) /\
  (forall c, c ∈ cs -> registered env c = false ->
     get (id c) m' = with_status mounted <$> get (id c) m) /\
  (forall k, k ∉ id <$> cs -> get k m' = get k m).
Proof.
  intros Hnd. simpl. unfold addComponents_steps.
  split; [| split].
  - intros j c Hj Hr. rewrite run_app, mount_loop_get.
    rewrite (insert_loop_get env cs m j c Hnd Hj Hr).
    replace (named (id <$> cs) (id c)) with true; [reflexivity |].
    symmetry. apply named_elem_of, list_elem_of_fmap. exists c.
    split; [reflexivity |]. now apply list_elem_of_lookup_2 in Hj.
  - intros c Hc Hr. rewrite run_app, mount_loop_get.
    replace (named (id <$> cs) (id c)) with true.
    + f_equal. apply insert_loop_other. intros c' Hc' Hr' Heq.
      apply list_elem_of_lookup in Hc as (j & Hj), Hc' as (j' & Hj').
      assert (Hjj : j' = j).
      { eapply NoDup_lookup; [exact Hnd | |];
          rewrite list_lookup_fmap; [rewrite Hj' | rewrite Hj]; simpl;
          [now rewrite Heq | reflexivity]. }
      subst j'. congruence.
    + symmetry. apply named_elem_of, list_elem_of_fmap. now exists c.
  - intros k Hk. rewrite run_app, mount_loop_get.
    replace (named (id <$> cs) k) with false.
    + apply insert_loop_other. intros c Hc _ Heq. apply Hk.
      apply list_elem_of_fmap. now exists c.
    + symmetry. apply not_true_is_false. intros Hn.
      now apply named_elem_of in Hn.
Qed.

(** X3 on a batch with a registered and an unregistered type. *)
Lemma add_outcome_scenario :
  let cs := [component "grid-1" "ProductGrid"; component "unknown-1" "Nope"] in
  let m' := run (addComponents_steps env0 cs) [] in
  get "grid-1" m' = Some (mountedAs env0 0 (component "grid-1" "ProductGrid")) /\
  get "unknown-1" m' = None /\
  keys m' = ["grid-1"].
Proof.
  assert (Hnd : NoDup (id <$> [component "grid-1" "ProductGrid";
                               component "unknown-1" "Nope"])).
  { apply (bool_decide_unpack (NoDup _)). vm_compute. exact I. }
  destruct (add_outcome env0 _ [] Hnd) as (Hreg & Hun & _).
  split; [exact (Hreg 0%nat _ eq_refl eq_refl) |].
  split; reflexivity.
Defined.

Lemma unnamed_all {V} ids (m : list (string * V)) :
  (forall k, k ∈ ids -> get k m = None) -> unnamed ids m = m.
Proof.
  intros Habs. unfold unnamed.
  rewrite (filter_ext_in _ (fun _ => true)).
  - clear. induction m as [| kv m IH]; [reflexivity |]. simpl. now rewrite IH.
  - intros kv Hin. apply negb_true_iff, not_true_is_false. intros Hn.
    apply named_elem_of, Habs in Hn.
    pose proof (has_own_key m kv (proj2 (list_elem_of_In _ _) Hin)) as Hh.
    apply has_true in Hh as [v Hv]. congruence.
Qed.

Lemma unnamed_add (env : Env) (cs : list ComponentInstance) m :
  unnamed (id <$> cs) (run (addComponents_steps env cs) m)
  = unnamed (id <$> cs) m.
Proof.
  assert (Hsteps : Forall (fun s : Step =>
            forall m', unnamed (id <$> cs) (s m') = unnamed (id <$> cs) m')
            (addComponents_steps env cs)).
  { unfold addComponents_steps. apply Forall_app. split.
    - apply Forall_forall. intros s Hs.
      apply elem_of_lookup_imap in Hs as (j & c & -> & Hj).
      intros m'. unfold add_one.
      destruct (negb _); [reflexivity |]. apply unnamed_set.
      apply named_elem_of, list_elem_of_fmap. exists c.
      split; [reflexivity |]. now apply list_elem_of_lookup_2 in Hj.
    - apply Forall_forall. intros s Hs.
      apply list_elem_of_In, in_map_iff in Hs as (c & <- & Hc).
      intros m'. apply unnamed_adjust.
      apply named_elem_of, list_elem_of_fmap. exists c.
      split; [reflexivity |]. now apply list_elem_of_In. }
  revert m. induction Hsteps as [| s steps Hs _ IH]; intros m; [reflexivity |].
  simpl. now rewrite IH, Hs.
Qed.

(** X4. Adding a batch whose ids are not active and then removing those
    ids restores the active map and keeps the layout key, whatever the
    registry holds and with or without an exit animation. *)
Theorem add_then_remove (env1 env2 : Env) (i1 i2 : UIInstruction)
    (cs : list ComponentInstance) e :
  action i1 = "add" -> components i1 = Some cs ->
  action i2 = "remove" -> componentIds i2 = Some (id <$> cs) ->
  (forall k, k ∈ id <$> cs -> get k (activeComponents e) = None) ->
  let e1 := engine_of (processInstruction env1 i1 e) in
  let e2 := engine_of (processInstruction env2 i2 e1) in
  activeComponents e2 = activeComponents e /\
  currentLayout e2 = currentLayout e /\
  updateCallback e2 = updateCallback e.
Proof.
  intros Ha1 Hc1 Ha2 Hc2 Hfresh. simpl.
  unfold processInstruction, instruction_steps.
  rewrite Ha1, Hc1, Ha2. simpl. rewrite Hc2. simpl.
  rewrite remove_closed_form, unnamed_add, (unnamed_all _ _ Hfresh).
  repeat split.
Qed.

(** X4 on the engine with two mounted components. *)
Lemma add_then_remove_demo :
  let cs := [component "grid-2" "ProductGrid"; component "unknown-1" "Nope"] in
  let e1 := engine_of (processInstruction env0 (addOf cs) twoMounted) in
  let e2 := engine_of (processInstruction env0
                         (removeAnimated ["grid-2"; "unknown-1"]) e1) in
  keys (activeComponents e1) = ["grid-1"; "filters-1"; "grid-2"] /\
  activeComponents e2 = activeComponents twoMounted.
Proof.
  split; [reflexivity |].
  refine (proj1 (add_then_remove env0 env0
                   (addOf [component "grid-2" "ProductGrid";
                           component "unknown-1" "Nope"])
                   (removeAnimated ["grid-2"; "unknown-1"]) _ twoMounted
                   eq_refl eq_refl eq_refl eq_refl _)).
  intros k Hk. simpl in Hk.
  apply elem_of_cons in Hk as [-> | Hk]; [reflexivity |].
  apply elem_of_cons in Hk as [-> | Hk]; [reflexivity |].
  now apply elem_of_nil in Hk.
Defined.

(** *** Which instructions change the active ids *)

Lemma run_keeps_keys (steps : list Step) m :
  Forall (fun s : Step => forall m', keys (s m') = keys m') steps ->
  keys (run steps m) = keys m.
Proof.
  intros Hst. revert m. induction Hst as [| s steps Hs _ IH]; intros m;
    [reflexivity |].
  simpl. now rewrite IH, Hs.
Qed.

Lemma has_set {V} k k' (v : V) (m : list (string * V)) :
  has k' (set k v m) = String.eqb k k' || has k' m.
Proof.
  unfold has. destruct (String.eqb k k') eqn:E; simpl.
  - apply String.eqb_eq in E. subst. now rewrite get_set_eq.
  - apply String.eqb_neq in E. now rewrite get_set_ne.
Qed.

Lemma has_adjust {V} (f : V -> V) k k' (m : list (string * V)) :
  has k' (adjust f k m) = has k' m.
Proof.
  unfold has. destruct (decide (k = k')) as [-> | Hne].
  - rewrite get_adjust_eq. now destruct (get k' m).
  - now rewrite get_adjust_ne.
Qed.

Lemma add_has (env : Env) (cs : list ComponentInstance) m k :
  has k (run (addComponents_steps env cs) m)
  = has k m || existsb (fun c => registered env c && String.eqb (id c) k) cs.
Proof.
  unfold addComponents_steps. rewrite run_app.
  assert (Hmount : forall m', has k (run (map mark_mounted cs) m') = has k m').
  { generalize cs. intros l. induction l as [| c l IH]; intros m';
      [reflexivity |].
    simpl. rewrite IH. apply has_adjust. }
  rewrite Hmount. clear Hmount.
  induction cs as [| x cs IH] using rev_ind.
  - simpl. now rewrite orb_false_r.
  - rewrite imap_app, run_app, existsb_app. simpl.
    unfold add_one at 1. unfold registered at 2.
    destruct (ComponentRegistry.has (type x) (registry env)); simpl.
    + rewrite has_set, IH. rewrite orb_false_r.
      unfold registered.
      destruct (has k m), (existsb _ cs), (String.eqb (id x) k); reflexivity.
    + rewrite IH. now rewrite !orb_false_r.
Qed.

(** X5. Only Add and Remove change which ids are active. An instruction
    with any other action (Update, Reorganize, an unknown action, or one
    that is rejected) leaves the keys of the active map as they are, in
    order. After an Add, the active ids are those active before and the
    ids of the batch's components of a registered type; after a Remove
    they are those active before that the instruction does not name. *)
Theorem active_ids_by_action (env : Env) (i : UIInstruction) e :
  let m := activeComponents e in
  let m' := activeComponents (engine_of (processInstruction env i e)) in
  (if String.eqb (action i) "add" then
     forall cs k, components i = Some cs ->
       has k m' = has k m
                  || existsb (fun c => registered env c && String.eqb (id c) k) cs
   else if String.eqb (action i) "remove" then
     forall ids, componentIds i = Some ids -> keys m' = keys (unnamed ids m)
   else keys m' = keys m).
Proof.
  simpl. unfold processInstruction, instruction_steps.
  destruct (String.eqb (action i) "add").
  { intros cs k Hcs. rewrite Hcs. simpl. apply add_has. }
  destruct (String.eqb (action i) "remove").
  { intros ids Hids. rewrite Hids. simpl. now rewrite remove_closed_form. }
  destruct (String.eqb (action i) "update").
  { destruct (updates i) as [us |]; simpl; [apply updates_keys | reflexivity]. }
  destruct (String.eqb (action i) "reorganize"); simpl; [| reflexivity].
  apply run_keeps_keys. apply Forall_forall. intros s Hs.
  apply list_elem_of_In, in_map_iff in Hs as (entry & <- & _).
  intros m'. apply keys_adjust.
Qed.

(** *** The positions map *)

Lemma set_absent {V} k (v : V) (m : list (string * V)) :
  get k m = None -> set k v m = (m ++ [(k, v)])%list.
Proof.
  induction m as [| [k' v'] m IH]; simpl; [reflexivity |].
  destruct (String.eqb k k'); [discriminate |].
  intros Hn. now rewrite IH.
Qed.

Lemma get_app_absent {V} k (a b : list (string * V)) :
  get k (a ++ b)%list = match get k a with Some v => Some v | None => get k b end.
Proof.
  induction a as [| [k' v'] a IH]; simpl; [reflexivity |].
  destruct (String.eqb k k'); [reflexivity | exact IH].
Qed.

Lemma get_absent_keys {V} k (m : list (string * V)) :
  get k m = None <-> k ∉ keys m.
Proof.
  unfold keys. induction m as [| [k' v'] m IH]; simpl.
  - split; [intros _ H; now apply elem_of_nil in H | reflexivity].
  - rewrite not_elem_of_cons. destruct (String.eqb k k') eqn:E.
    + apply String.eqb_eq in E. subst. split; [discriminate | tauto].
    + apply String.eqb_neq in E. unfold fmap in IH. rewrite IH. tauto.
Qed.

Lemma assign_fresh {V} (a b : list (string * V)) :
  NoDup b.*1 -> (forall k, k ∈ b.*1 -> get k a = None) ->
  assign a b = (a ++ b)%list.
Proof.
  unfold assign. revert a.
  induction b as [| [k v] b IH]; intros a Hnd Hfresh; simpl.
  - now rewrite app_nil_r.
  - simpl in Hnd. apply NoDup_cons in Hnd as [Hk Hnd].
    rewrite set_absent by (apply Hfresh; simpl; now left).
    change (fold_left _ b ?x) with (assign x b). unfold assign.
    rewrite IH; [now rewrite <- app_assoc | exact Hnd |].
    intros k' Hk'. rewrite get_app_absent.
    rewrite Hfresh by (simpl; now right). simpl.
    destruct (String.eqb k' k) eqn:E; [| reflexivity].
    apply String.eqb_eq in E. subst. contradiction.
Qed.

(** The entries [calculatePositions] writes, in the order it writes them. *)
Lemma positions_written (cs : list ComponentState) (layout : option string) :
  NoDup (idOf <$> cs) ->
  calculatePositions cs layout
  = if is_key layout "centered" then
      imap (fun index c => (idOf c, centeredAt index)) cs
    else if is_key layout "two-column" then
      (imap (fun index c => (idOf c, sidebarAt index)) (List.filter isSidebar cs)
       ++ imap (fun index c => (idOf c, mainAt index))
            (List.filter (fun c => negb (isSidebar c)) cs))%list
    else if is_key layout "grid" then
      imap (fun index c => (idOf c, gridAt index)) cs
    else imap (fun index c => (idOf c, mainAt index)) cs.
Proof.
  intros Hnd. unfold calculatePositions, setEach.
  assert (Hone : forall at_ : nat -> Position,
            assign [] (imap (fun index c => (id (instance c), at_ index)) cs)
            = imap (fun index c => (idOf c, at_ index)) cs).
  { intros at_. rewrite assign_fresh; [reflexivity | | reflexivity].
    now rewrite imap_keys. }
  destruct (is_key layout "centered"); [apply Hone |].
  destruct (is_key layout "two-column").
  - rewrite assign_app, assign_fresh; [reflexivity | | reflexivity].
    rewrite fmap_app, !imap_keys, <- fmap_app.
    change (fun c0 : ComponentState => id (instance c0)) with idOf.
    now rewrite filter_split_perm.
  - destruct (is_key layout "grid"); apply Hone.
Qed.

Lemma get_unique {V} k (v : V) (l : list (string * V)) :
  NoDup l.*1 -> (k, v) ∈ l -> get k l = Some v.
Proof.
  intros Hnd Hin. induction l as [| [k' v'] l IH];
    [now apply elem_of_nil in Hin |].
  simpl in *. apply NoDup_cons in Hnd as [Hk' Hnd].
  apply elem_of_cons in Hin as [Heq | Hin].
  - injection Heq as -> ->. now rewrite String.eqb_refl.
  - destruct (String.eqb k k') eqn:E; [| now apply IH].
    apply String.eqb_eq in E. subst k'. exfalso. apply Hk'.
    apply list_elem_of_fmap. now exists (k, v).
Qed.

Lemma indexed_get (at_ : nat -> Position) (cs : list ComponentState) i c :
  NoDup (idOf <$> cs) -> cs !! i = Some c ->
  get (idOf c) (imap (fun index c => (idOf c, at_ index)) cs) = Some (at_ i).
Proof.
  intros Hnd Hi. apply get_unique.
  - now rewrite imap_keys.
  - apply list_elem_of_lookup. exists i. now rewrite list_lookup_imap, Hi.
Qed.

Lemma positions_keys (cs : list ComponentState) (layout : option string) :
  NoDup (idOf <$> cs) ->
  let positions := calculatePositions cs layout in
  length positions = length cs /\
  NoDup (keys positions) /\
  (forall k, k ∈ keys positions <-> k ∈ idOf <$> cs) /\
  keys positions
  = if negb (is_key layout "centered") && is_key layout "two-column"
    then ((idOf <$> List.filter isSidebar cs)
          ++ (idOf <$> List.filter (fun c => negb (isSidebar c)) cs))%list
    else idOf <$> cs.
Proof.
  intros Hnd. simpl. rewrite (positions_written cs layout Hnd).
  assert (Hperm : ((idOf <$> List.filter isSidebar cs)
                   ++ (idOf <$> List.filter (fun c => negb (isSidebar c)) cs))%list
                  ≡ₚ idOf <$> cs).
  { rewrite <- fmap_app. now rewrite filter_split_perm. }
  unfold keys.
  destruct (is_key layout "centered"); simpl;
    [| destruct (is_key layout "two-column"); simpl;
       [| destruct (is_key layout "grid")]];
    rewrite ?fmap_app, ?imap_keys, ?length_app, ?length_imap;
    repeat split; auto;
    try (rewrite Hperm; auto);
    try (intros Hk; rewrite <- Hperm; auto);
    try (intros Hk; rewrite Hperm in Hk; auto).
  rewrite <- length_app.
  rewrite <- (length_fmap idOf (_ ++ _)), fmap_app, Hperm.
  apply length_fmap.
Qed.

(** X6. For components with pairwise distinct ids the positions map has
    one entry per component and no other: its keys are the components'
    ids, in input order, except under "two-column", where the sidebar
    components come first and the others after, each group in input
    order. *)
Theorem positions_cover_components (cs : list ComponentState)
    (layout : option string) :
  NoDup (idOf <$> cs) ->
  let positions := calculatePositions cs layout in
  length positions = length cs /\
  NoDup (keys positions) /\
  (forall k, k ∈ keys positions <-> k ∈ idOf <$> cs) /\
  keys positions
  = if negb (is_key layout "centered") && is_key layout "two-column"
    then ((idOf <$> List.filter isSidebar cs)
          ++ (idOf <$> List.filter (fun c => negb (isSidebar c)) cs))%list
    else idOf <$> cs.
Proof.
  intros Hnd.
  destruct (positions_keys cs layout Hnd) as (Hlen & Hnodup & Hmem & Hkeys).
  simpl. split; [exact Hlen |]. split; [exact Hnodup |].
  split; [exact Hmem | exact Hkeys].
Qed.

(** X6 on a grid, a filter panel and a navigation panel. *)
Lemma positions_cover_three :
  keys (calculatePositions threeStates (Some "two-column"))
    = ["filters-1"; "nav-1"; "grid-1"] /\
  keys (calculatePositions threeStates (Some "grid"))
    = ["grid-1"; "filters-1"; "nav-1"].
Proof.
  assert (Hnd : NoDup (idOf <$> threeStates)).
  { apply (bool_decide_unpack (NoDup _)). vm_compute. exact I. }
  split.
  - exact (proj2 (proj2 (proj2
             (positions_cover_components threeStates (Some "two-column") Hnd)))).
  - reflexivity.
Defined.

(** X7. Under layout "grid", with pairwise distinct ids, the component at
    index [i] is placed at column [i mod 3 + 1] and row [i / 3 + 1]: the
    column is 1, 2 or 3, cells are filled row by row, and two different
    components never share a cell. *)
Theorem grid_cells (cs : list ComponentState) (i : nat) (c : ComponentState) :
  NoDup (idOf <$> cs) ->
  cs !! i = Some c ->
  let positions := calculatePositions cs (Some "grid") in
  get (idOf c) positions = Some (gridAt i) /\
  area (gridAt i) = "grid" /\
  order (gridAt i) = Z.of_nat i /\
  (exists col row,
     gridColumn (gridAt i) = Some col /\ gridRow (gridAt i) = Some row /\
     (1 <= col <= 3)%Z /\ (1 <= row)%Z /\
     ((row - 1) * 3 + (col - 1) = Z.of_nat i)%Z) /\
  (forall j c', cs !! j = Some c' ->
     get (idOf c') positions = Some (gridAt j) /\
     (gridColumn (gridAt j) = gridColumn (gridAt i) ->
      gridRow (gridAt j) = gridRow (gridAt i) -> j = i)).
Proof.
  intros Hnd Hi. simpl.
  assert (Hget : forall j d, cs !! j = Some d ->
            get (idOf d) (calculatePositions cs (Some "grid")) = Some (gridAt j)).
  { intros j d Hj. rewrite (positions_written cs _ Hnd). simpl.
    now apply indexed_get. }
  split; [now apply Hget |]. split; [reflexivity |]. split; [reflexivity |].
  split.
  - exists (Z.of_nat i mod 3 + 1)%Z, (Z.of_nat i / 3 + 1)%Z.
    split; [reflexivity |]. split; [reflexivity |].
    pose proof (Z.mod_pos_bound (Z.of_nat i) 3 ltac:(lia)) as Hm.
    pose proof (Z.div_pos (Z.of_nat i) 3 ltac:(lia) ltac:(lia)) as Hd.
    pose proof (Z.div_mod (Z.of_nat i) 3 ltac:(lia)) as Hdm.
    lia.
  - intros j c' Hj. split; [now apply Hget |].
    simpl. intros [= Hcol] [= Hrow].
    pose proof (Z.div_mod (Z.of_nat i) 3 ltac:(lia)) as Hdi.
    pose proof (Z.div_mod (Z.of_nat j) 3 ltac:(lia)) as Hdj.
    lia.
Qed.

(** X7 on three components. *)
Lemma grid_cells_three :
  get "nav-1" (calculatePositions threeStates (Some "grid")) = Some (gridAt 2) /\
  gridColumn (gridAt 2) = Some 3%Z /\ gridRow (gridAt 2) = Some 1%Z /\
  gridColumn (gridAt 3) = Some 1%Z /\ gridRow (gridAt 3) = Some 2%Z.
Proof.
  assert (Hnd : NoDup (idOf <$> threeStates)).
  { apply (bool_decide_unpack (NoDup _)). vm_compute. exact I. }
  split.
  - exact (proj1 (grid_cells threeStates 2
                    (mountedState "nav-1" "NavigationPanel") Hnd eq_refl)).
  - repeat split.
Defined.

(** X8. A layout key other than "centered", "two-column" and "grid"
    (an unknown name, "default", or no key at all) places the component at
    index [i] in area "main" with order [i] and full width; "centered"
    places it in area "center" with order [i] and a 600px maximal width. *)
Theorem index_layouts (cs : list ComponentState) (layout : option string)
    (i : nat) (c : ComponentState) :
  NoDup (idOf <$> cs) ->
  cs !! i = Some c ->
  get (idOf c) (calculatePositions cs layout)
  = Some (if is_key layout "centered" then centeredAt i
          else if isNamedLayout layout
               then (if is_key layout "two-column"
                     then twoColumnAt c (rank c i cs) else gridAt i)
               else mainAt i).
Proof.
  intros Hnd Hi. rewrite (positions_written cs layout Hnd).
  unfold isNamedLayout.
  destruct (is_key layout "centered"); simpl; [now apply indexed_get |].
  destruct (is_key layout "two-column") eqn:Htwo; simpl.
  - apply get_unique.
    + rewrite fmap_app, !imap_keys, <- fmap_app. now rewrite filter_split_perm.
    + apply elem_of_app. unfold twoColumnAt, rank.
      destruct (isSidebar c) eqn:Hc.
      * rewrite (filter_ext' (sameArea c) isSidebar)
          by (intros x; unfold sameArea; rewrite Hc; now destruct (isSidebar x)).
        left. apply list_elem_of_lookup.
        exists (length (List.filter isSidebar (take i cs))).
        now rewrite list_lookup_imap, (filter_lookup_rank _ _ _ _ Hi Hc).
      * rewrite (filter_ext' (sameArea c) (fun x => negb (isSidebar x)))
          by (intros x; unfold sameArea; rewrite Hc; now destruct (isSidebar x)).
        right. apply list_elem_of_lookup.
        exists (length (List.filter (fun x => negb (isSidebar x)) (take i cs))).
        rewrite list_lookup_imap, (filter_lookup_rank _ _ _ _ Hi); [reflexivity |].
        now rewrite Hc.
  - destruct (is_key layout "grid"); now apply indexed_get.
Qed.

(** X8 on the layout keys the intent mapper's rules name. *)
Lemma index_layouts_three :
  get "nav-1" (calculatePositions threeStates (Some "split-view")) = Some (mainAt 2) /\
  get "nav-1" (calculatePositions threeStates None) = Some (mainAt 2) /\
  get "nav-1" (calculatePositions threeStates (Some "centered"))
    = Some (centeredAt 2).
Proof.
  assert (Hnd : NoDup (idOf <$> threeStates)).
  { apply (bool_decide_unpack (NoDup _)). vm_compute. exact I. }
  split; [| split].
  - exact (index_layouts threeStates (Some "split-view") 2
             (mountedState "nav-1" "NavigationPanel") Hnd eq_refl).
  - exact (index_layouts threeStates None 2
             (mountedState "nav-1" "NavigationPanel") Hnd eq_refl).
  - exact (index_layouts threeStates (Some "centered") 2
             (mountedState "nav-1" "NavigationPanel") Hnd eq_refl).
Defined.

(** *** Reorganize applies the layout *)

Lemma run_reposition_other entries k m :
  k ∉ entries.*1 -> get k (run (reposition <$> entries) m) = get k m.
Proof.
  revert m. induction entries as [| [k0 p0] entries IH]; intros m Hk;
    [reflexivity |].
  simpl in *. apply not_elem_of_cons in Hk as [Hne Hk].
  rewrite IH by exact Hk. unfold reposition. simpl.
  apply get_adjust_ne. congruence.
Qed.

Lemma run_reposition_get entries k p m c :
  NoDup entries.*1 -> (k, p) ∈ entries -> get k m = Some c ->
  get k (run (reposition <$> entries) m)
  = Some (with_instance (with_position p) c).
Proof.
  revert m. induction entries as [| [k0 p0] entries IH]; intros m Hnd Hin Hc;
    [now apply elem_of_nil in Hin |].
  simpl in *. apply NoDup_cons in Hnd as [Hk0 Hnd].
  apply elem_of_cons in Hin as [Heq | Hin].
  - injection Heq as -> ->. rewrite run_reposition_other by exact Hk0.
    unfold reposition. simpl. now rewrite get_adjust_eq, Hc.
  - apply IH; [exact Hnd | exact Hin |].
    unfold reposition. simpl. rewrite get_adjust_ne; [exact Hc |].
    intros ->. apply Hk0. apply list_elem_of_fmap. now exists (k, p).
Qed.

Lemma well_keyed_ids m :
  well_keyed m -> idOf <$> values m = keys m /\ NoDup (idOf <$> values m).
Proof.
  intros [Hnd Hall].
  assert (Hids : idOf <$> values m = keys m).
  { clear Hnd. unfold values, keys.
    induction Hall as [| [k v] m Hkv _ IH]; [reflexivity |].
    simpl in *. f_equal; [exact Hkv | exact IH]. }
  split; [exact Hids | now rewrite Hids].
Qed.

(** X9. A Reorganize writes to every active component the position the
    layout engine computed for its id and nothing else: its props, type,
    status and mount time stay, the keys of the map stay, and the layout
    key of the instruction becomes the current layout. (The active map is
    well keyed, as it is in every run from a new engine.) *)
Theorem reorganize_applies_layout (env : Env) (i : UIInstruction) e k c :
  well_keyed (activeComponents e) ->
  action i = "reorganize" ->
  get k (activeComponents e) = Some c ->
  let e' := engine_of (processInstruction env i e) in
  exists p,
    get k (calculatePositions (values (activeComponents e)) (layout i)) = Some p /\
    get k (activeComponents e') = Some (with_instance (with_position p) c) /\
    currentLayout e' = layout i /\
    keys (activeComponents e') = keys (activeComponents e) /\
    well_keyed (activeComponents e').
Proof.
  intros Hwk Ha Hc. simpl.
  destruct (well_keyed_ids _ Hwk) as [Hids Hnd].
  pose proof (positions_keys _ (layout i) Hnd) as (_ & Hndk & Hkeys & _).
  assert (Hk : k ∈ keys (calculatePositions (values (activeComponents e)) (layout i))).
  { apply Hkeys. rewrite Hids. apply dec_stable. intros Hnot.
    apply get_absent_keys in Hnot. congruence. }
  unfold keys in Hk. apply list_elem_of_fmap in Hk as ([k' p] & Hk' & Hin).
  simpl in Hk'. subst k'. exists p.
  unfold processInstruction, instruction_steps. rewrite Ha. simpl.
  rewrite reorganize_steps_eq.
  split; [now apply get_unique |].
  split; [now apply run_reposition_get |].
  split; [reflexivity |]. split.
  - apply run_keeps_keys. apply Forall_forall. intros s Hs.
    apply list_elem_of_fmap in Hs as (entry & -> & _).
    intros m'. apply keys_adjust.
  - apply run_keeps_well_keyed; [| exact Hwk].
    apply Forall_forall. intros s Hs.
    apply list_elem_of_fmap in Hs as (entry & -> & _).
    intros m' Hm'. now apply adjust_well_keyed.
Qed.

(** X9 on the engine with a grid and a filter panel. *)
Lemma reorganize_applies_two_column :
  let e' := engine_of (processInstruction env0 (reorganizeTo "two-column")
                         twoMounted) in
  (position ∘ instance) <$> get "filters-1" (activeComponents e')
    = Some (sidebarAt 0) /\
  (position ∘ instance) <$> get "grid-1" (activeComponents e')
    = Some (mainAt 0) /\
  currentLayout e' = Some "two-column".
Proof.
  assert (Hwk : well_keyed (activeComponents twoMounted)).
  { split; [| repeat constructor].
    apply (bool_decide_unpack (NoDup _)). vm_compute. exact I. }
  destruct (reorganize_applies_layout env0 (reorganizeTo "two-column")
              twoMounted "filters-1"
              (mountedAs env0 1 (component "filters-1" "FilterPanel"))
              Hwk eq_refl eq_refl) as (p & Hp & Hget & Hl & _).
  split; [| split; [reflexivity | exact Hl]].
  rewrite Hget. simpl. f_equal.
  vm_compute in Hp. now injection Hp as <-.
Defined.

End EngineExtras.

(* ===================================================================== *)
(** ** Further properties of the intent mapper *)
(* ===================================================================== *)

Section MapperExtras.
Import Js IntentMapper.

Ltac split_types ty :=
  destruct (String.eqb ty "greeting") eqn:?E1,
           (String.eqb ty "product_browse") eqn:?E2,
           (String.eqb ty "product_detail") eqn:?E3,
           (String.eqb ty "style_advice") eqn:?E4,
           (String.eqb ty "store_visit") eqn:?E5;
  repeat match goal with
         | H : String.eqb _ _ = true |- _ => apply String.eqb_eq in H
         end;
  try congruence; simpl.

Ltac split_tests :=
  repeat match goal with
         | |- context [num_gt ?a ?b] => destruct (num_gt a b) eqn:?; simpl
         | |- context [str_eq ?a ?b] => destruct (str_eq a b) eqn:?; simpl
         | |- context [truthy (prop ?k ?e)] =>
             destruct (truthy (prop k e)) eqn:?; simpl
         end.

(** X11. The instruction has no component exactly when the urgency
    modifier is the only rule that matches; it is then the untouched
    draft (action "add", layout "default") with the modifier's animation
    and props. A matching Add rule always contributes its components. *)
Theorem no_components_iff_only_modifier (o : Oracle) (analysis : IntentAnalysis) :
  let r := mapToUIInstructions o analysis in
  (ui_components r = [] <-> matchingRules analysis = ["urgency_modifier"]) /\
  (ui_components r = [] -> r = modifierOnly).
Proof.
  destruct analysis as [[ty c msg] ents ctx].
  unfold mapToUIInstructions, matchingRules, initializeMappingRules,
    evaluateRule. simpl.
  split_types ty; split_tests;
    (split; [split |]); intros H; try discriminate H; reflexivity.
Qed.

(** X11 at an urgent support request: an instruction without components. *)
Example urgent_support_is_empty :
  mapToUIInstructions fixedOracle urgentSupport = modifierOnly.
Proof. reflexivity. Qed.

Lemma num_gt_false_le (c a b : Q) :
  num_gt c a = false -> (a <= b)%Q -> num_gt c b = false.
Proof.
  unfold num_gt. intros Hc Hab.
  apply negb_false_iff in Hc. apply negb_false_iff.
  apply Qle_bool_iff in Hc. apply Qle_bool_iff.
  now apply (Qle_trans _ a).
Qed.

(** X12. Confidence gating ends in the fallback: at a confidence of at
    most 0.6, an intent whose type is not one of the three that are
    matched on type alone (product_detail, style_advice, store_visit)
    matches no rule, whatever its urgency, and gets the fallback
    instruction. *)
Theorem low_confidence_falls_back (o : Oracle) (analysis : IntentAnalysis) :
  num_gt (confidence (intent analysis)) (6 # 10) = false ->
  ungated (type (intent analysis)) = false ->
  matchingRules analysis = [] /\
  mapToUIInstructions o analysis = getDefaultInstruction o.
Proof.
  destruct analysis as [[ty c msg] ents ctx]. simpl. intros Hc Hty.
  pose proof (num_gt_false_le c _ (7 # 10) Hc ltac:(discriminate)) as H7.
  pose proof (num_gt_false_le c _ (8 # 10) Hc ltac:(discriminate)) as H8.
  unfold ungated in Hty. simpl in Hty.
  apply orb_false_iff in Hty as [Hd Hty].
  apply orb_false_iff in Hty as [Hs Hty].
  apply orb_false_iff in Hty as [Hv _].
  unfold mapToUIInstructions, matchingRules, initializeMappingRules,
    evaluateRule. simpl.
  rewrite Hc, H7, H8, Hd, Hs, Hv. simpl.
  destruct (String.eqb ty "greeting"), (String.eqb ty "product_browse"),
    (str_eq (prop "urgency" ctx) "high"); simpl; split; reflexivity.
Qed.

(** X12 on an urgent greeting at confidence 0.6. *)
Lemma low_confidence_greeting :
  let analysis :=
    {| intent := {| type := "greeting"; confidence := 6 # 10;
                    originalMessage := "hi" |};
       entities := []; context := [("urgency", VStr "high")] |} in
  matchingRules analysis = [] /\
  mapToUIInstructions fixedOracle analysis = getDefaultInstruction fixedOracle.
Proof.
  exact (low_confidence_falls_back fixedOracle
           {| intent := {| type := "greeting"; confidence := 6 # 10;
                           originalMessage := "hi" |};
              entities := []; context := [("urgency", VStr "high")] |}
           eq_refl eq_refl).
Defined.

(** *** The merged components *)

Lemma push_all_instances o analysis defs draft :
  fold_left (push_component o analysis) defs draft
  = (draft ++ imap (fun i d => instantiate o analysis (length draft + i) d) defs)%list.
Proof.
  revert draft. induction defs as [| d defs IH]; intros draft; simpl.
  - now rewrite app_nil_r.
  - rewrite IH. unfold push_component at 1. rewrite <- app_assoc. simpl.
    f_equal. unfold instantiate at 2. rewrite Nat.add_0_r. f_equal.
    apply imap_ext. intros i d' _. rewrite push_component_length.
    simpl. f_equal. lia.
Qed.

Lemma merge_rule_instances o analysis base rule :
  ui_components (merge_rule o analysis base rule)
  = (ui_components base
     ++ imap (fun i d => instantiate o analysis (length (ui_components base) + i) d)
          (contributed rule))%list.
Proof.
  unfold merge_rule, contributed, apply_modifications.
  destruct (action (instruction rule)); simpl;
    try (destruct (components (instruction rule)); simpl;
         [apply push_all_instances | now rewrite app_nil_r]).
  destruct (modifications (instruction rule)); simpl; now rewrite app_nil_r.
Qed.

Lemma merge_fold_instances o analysis rules base :
  ui_components (fold_left (merge_rule o analysis) rules base)
  = (ui_components base
     ++ imap (fun i d => instantiate o analysis (length (ui_components base) + i) d)
          (concat (contributed <$> rules)))%list.
Proof.
  revert base. induction rules as [| r rules IH]; intros base.
  - simpl. now rewrite app_nil_r.
  - rewrite fmap_cons. simpl. rewrite IH, merge_rule_instances.
    rewrite imap_app, <- app_assoc. do 2 f_equal.
    apply imap_ext. intros i d _. rewrite length_app, length_imap.
    f_equal. lia.
Qed.

(** X13. The merged instruction lists one component per definition of the
    matched Add rules, rule by rule and, within a rule, in the order of its
    definitions. Each component takes its type, its props and its position
    from its definition (the position is the one the rule declares, area
    and order, not a position computed from the index); only the id and
    the animation delay depend on the index. *)
Theorem merged_components_follow_definitions (o : Oracle)
    (rules : list MappingRule) (analysis : IntentAnalysis) :
  let defs := concat (contributed <$> rules) in
  let merged := ui_components (mergeInstructions o rules analysis) in
  merged = imap (instantiate o analysis) defs /\
  ctype <$> merged = def_type <$> defs /\
  position <$> merged = def_position <$> defs /\
  props <$> merged = (fun d => resolve_props (def_props d) analysis) <$> defs.
Proof.
  simpl. unfold mergeInstructions.
  rewrite merge_fold_instances. simpl.
  generalize (concat (contributed <$> rules)). intros defs.
  assert (Hmap : forall (B : Type) (f : ComponentInstance -> B)
                        (g : ComponentDefinition -> B),
            (forall i d, f (instantiate o analysis i d) = g d) ->
            f <$> imap (instantiate o analysis) defs = g <$> defs).
  { intros B f g Hfg. generalize (instantiate o analysis) Hfg.
    clear Hfg. induction defs as [| d defs IH]; intros h Hh; [reflexivity |].
    simpl. f_equal; [apply Hh |]. apply (IH (fun n => h (S n))).
    intros i d'. apply Hh. }
  repeat split; apply Hmap; reflexivity.
Qed.

(** *** Filters *)

Ltac split_key k :=
  repeat match goal with
         | |- context [String.eqb k ?l] =>
             let E := fresh "E" in
             destruct (String.eqb k l) eqn:E;
             [apply String.eqb_eq in E; subst k; simpl | simpl]
         end.

(** X14. [extractFilters] writes a filter name exactly when the entity it
    copies is truthy, with that entity as its value: "category" from
    [product_type], "priceRange" from [price_range], and "color",
    "occasion", "style" from the entities of the same name. It writes no
    other key and never a falsy value. *)
Theorem extractFilters_lookup (entities : Obj) (k : string) :
  get k (extractFilters entities)
  = match get k filterSources with
    | Some src =>
        if truthy (prop src entities) then Some (prop src entities) else None
    | None => None
    end.
Proof.
  unfold extractFilters, copy_if_truthy, filterSources.
  destruct (truthy (prop "color" entities)) eqn:Hcolor,
           (truthy (prop "product_type" entities)) eqn:Htype,
           (truthy (prop "occasion" entities)) eqn:Hoccasion,
           (truthy (prop "price_range" entities)) eqn:Hprice,
           (truthy (prop "style" entities)) eqn:Hstyle; simpl;
    split_key k;
    rewrite ?Hcolor, ?Htype, ?Hoccasion, ?Hprice, ?Hstyle; reflexivity.
Qed.

(** X15. [getAvailableFilters] lists the filters the user mentioned
    first, then the remaining base filters, without repetition; every base
    filter is in the list. The list has seven entries, and eight when a
    price range was mentioned: the mentioned name is "priceRange", which
    does not cancel the base filter "price". *)
Theorem availableFilters_shape (entities : Obj) :
  let mentioned := keys (extractFilters entities) in
  let r := getAvailableFilters entities in
  NoDup r /\
  Forall (fun f => f ∈ r) baseFilters /\
  take (length mentioned) r = mentioned /\
  length r = (7 + if truthy (prop "price_range" entities) then 1 else 0)%nat.
Proof.
  unfold getAvailableFilters, extractFilters, copy_if_truthy, baseFilters.
  destruct (truthy (prop "color" entities)),
           (truthy (prop "product_type" entities)),
           (truthy (prop "occasion" entities)),
           (truthy (prop "price_range" entities)),
           (truthy (prop "style" entities)); simpl;
    (split; [apply (bool_decide_unpack (NoDup _)); vm_compute; exact I |]);
    (split; [apply (bool_decide_unpack (Forall _ _)); vm_compute; exact I |]);
    split; reflexivity.
Qed.

(** *** The animation of the result *)

(** X16. When the urgency modifier matches, the instruction's animation
    is the modifier's object as a whole (enter "instant", duration 0.3, no
    exit and no stagger: the exit "fadeOut" of the draft is lost) and the
    instruction carries the modifier's props. When it does not match, the
    animation keeps the exit "fadeOut" and the instruction has no props. *)
Theorem urgency_replaces_animation (o : Oracle) (analysis : IntentAnalysis) :
  let r := mapToUIInstructions o analysis in
  if evaluateRule urgency_modifier analysis
  then ui_animation r = urgentAnimation /\
       ui_props r = Some [("priority", VStr "high");
                          ("showQuickActions", VBool true)]
  else exit (ui_animation r) = Some "fadeOut" /\ ui_props r = None.
Proof.
  destruct analysis as [[ty c msg] ents ctx].
  unfold mapToUIInstructions, matchingRules, initializeMappingRules,
    evaluateRule. simpl.
  split_types ty; split_tests; split; reflexivity.
Qed.

End MapperExtras.

(* ===================================================================== *)
(** ** Further properties of the registry *)
(* ===================================================================== *)

Section RegistryExtras.
Import ComponentRegistry.

(** X17. No read by key ([get], [has], [getMetadata]) sees the order of
    two registrations under different names, and a registration that
    passes metadata hides an earlier registration under the same name from
    these reads. ([getComponentNames] lists the names in insertion order
    and does see the order of registration; it is not embedded.) *)
Theorem register_reads_commute (n1 n2 : string) (c1 c2 : ComponentType)
    (md1 md2 : option ComponentMetadata) (md : ComponentMetadata) (r : t) :
  (n1 <> n2 ->
   sameReads (register n1 c1 md1 (register n2 c2 md2 r))
             (register n2 c2 md2 (register n1 c1 md1 r))) /\
  sameReads (register n1 c1 (Some md) (register n1 c2 md2 r))
            (register n1 c1 (Some md) r).
Proof.
  split.
  - intros Hne k. unfold get, has, getMetadata, register. simpl.
    assert (Hc : (<[n1:=c1]> (<[n2:=c2]> (components r)) : gmap _ _) !! k
                 = (<[n2:=c2]> (<[n1:=c1]> (components r)) : gmap _ _) !! k).
    { now rewrite insert_insert_ne. }
    rewrite Hc. repeat split.
    destruct md1, md2; simpl; try reflexivity. now rewrite insert_insert_ne.
  - intros k. unfold get, has, getMetadata, register. simpl.
    rewrite insert_insert_eq. repeat split.
    destruct md2; [now rewrite insert_insert_eq | reflexivity].
Qed.

Ltac split_intent_types ty :=
  destruct (String.eqb ty "greeting") eqn:?E1,
           (String.eqb ty "product_browse") eqn:?E2,
           (String.eqb ty "product_detail") eqn:?E3,
           (String.eqb ty "style_advice") eqn:?E4,
           (String.eqb ty "store_visit") eqn:?E5;
  repeat match goal with
         | H : String.eqb _ _ = true |- _ => apply String.eqb_eq in H
         end;
  try congruence; simpl.

Lemma inherited_not_mapped (ty : string) :
  isInherited ty = true -> Js.get ty getIntentMapping = None.
Proof.
  unfold isInherited, inheritedNames. rewrite existsb_exists.
  intros (name & Hin & Heq). apply String.eqb_eq in Heq. subst name.
  simpl in Hin.
  repeat (destruct Hin as [<- | Hin]; [reflexivity |]). destruct Hin.
Qed.

(** X18. [mapIntentToComponents] throws exactly when the intent type is a
    property name inherited from [Object.prototype]; for every other type
    without an entry in the mapping it returns the default manifest: one
    conversation panel, layout "centered". *)
Theorem static_mapping_fallback (clock : nat -> Z) (intent : Intent) :
  (mapIntentToComponents clock intent = None
   <-> isInherited (type intent) = true) /\
  (isInherited (type intent) = false ->
   Js.get (type intent) getIntentMapping = None ->
   mapIntentToComponents clock intent = Some (getDefaultManifest clock)).
Proof.
  unfold mapIntentToComponents. split; [split |].
  - destruct (Js.get (type intent) getIntentMapping); [discriminate |].
    destruct (isInherited (type intent)); [reflexivity | discriminate].
  - intros Hin. now rewrite (inherited_not_mapped _ Hin), Hin.
  - intros Hin Hget. now rewrite Hget, Hin.
Qed.

(** X19. The [minConfidence] of the mapping is never read: the components
    and the layout of the manifest are the same at every confidence. For a
    type with an entry the confidence only selects the animation (0.5s
    "fadeInUp" above 0.8, 0.3s "fadeIn" otherwise) and the priority (high
    above 0.8, else normal). *)
Theorem static_mapping_ignores_confidence (clock : nat -> Z) (intent : Intent)
    (c' : Q) :
  match mapIntentToComponents clock intent,
        mapIntentToComponents clock (with_confidence c' intent) with
  | Some m, Some m' =>
      manifest_components m' = manifest_components m /\
      manifest_layout m' = manifest_layout m /\
      (Js.get (type intent) getIntentMapping <> None ->
       animations m' = getAnimationConfig c' /\
       priority m' = Some (if Js.num_gt c' (8 # 10) then high else normal))
  | None, None => True
  | _, _ => False
  end.
Proof.
  destruct intent as [ty c ents ctx].
  unfold mapIntentToComponents, with_confidence.
  cbn [type confidence entities context].
  destruct (Js.get ty getIntentMapping) as [config |].
  - split; [reflexivity |]. split; [reflexivity |].
    intros _. split; reflexivity.
  - destruct (isInherited ty); [exact I |].
    split; [reflexivity |]. split; [reflexivity |].
    intros H. now contradiction H.
Qed.

(** X19 on a browse request at confidence 0. *)
Example timid_browse_is_served :
  (fun m => ctype <$> manifest_components m)
    <$> mapIntentToComponents stillClock timidBrowse
    = Some ["ProductGrid"; "FilterPanel"; "PersonalizedRecommendations"] /\
  manifest_layout <$> mapIntentToComponents stillClock timidBrowse
    = Some "two-column" /\
  priority <$> mapIntentToComponents stillClock timidBrowse
    = Some (Some normal).
Proof. repeat split. Qed.

(** X20. The layout of the manifest is the one [determineLayout] derives
    from the components, not the [layout] the mapping declares: it is
    "full-width" for product_detail, "two-column" for product_browse,
    "default" for style_advice and store_visit (declared "three-panel" and
    "split-view"), and "centered" for greeting and for every type without
    an entry. *)
Theorem static_layout_by_type (clock : nat -> Z) (intent : Intent) :
  manifest_layout <$> mapIntentToComponents clock intent
  = if isInherited (type intent) then None
    else Some (layoutOf (type intent)).
Proof.
  destruct (isInherited (type intent)) eqn:Hin.
  - unfold mapIntentToComponents.
    now rewrite (inherited_not_mapped _ Hin), Hin.
  - destruct intent as [ty c ents ctx]. simpl in *.
    unfold mapIntentToComponents, layoutOf. simpl.
    split_intent_types ty; rewrite ?Hin; try reflexivity.
    unfold selectComponentsForIntent. simpl.
    destruct ctx as [ctx |]; simpl; [| reflexivity].
    destruct (Js.truthy (default Js.VUndefined (Js.get "with_preferences" ctx)));
      destruct (Js.truthy (default Js.VUndefined (Js.get "luxury_focus" ctx)));
      reflexivity.
Qed.

Ltac indexed_list :=
  let i := fresh "i" in let c := fresh "c" in let Hi := fresh "Hi" in
  intros i c Hi;
  repeat (destruct i as [| i]; simpl in Hi;
          [ injection Hi as <-; simpl; split; reflexivity | ]);
  try (rewrite lookup_nil in Hi); discriminate Hi.

(** X21. A manifest lists the base components of the intent's type in the
    order of the mapping, followed by the contextual components whose key
    is truthy in the intent's context (and the single conversation panel
    for a type without entry). The order of each component is its index in
    the list and its animation delay is the double product of the index
    and 0.1 (0.30000000000000004 for the fourth component). *)
Theorem static_components_indexed (clock : nat -> Z) (intent : Intent) :
  match mapIntentToComponents clock intent with
  | Some m =>
      ctype <$> manifest_components m = expectedTypes intent /\
      indexed (manifest_components m)
  | None => True
  end.
Proof.
  destruct intent as [ty c ents ctx].
  unfold mapIntentToComponents, expectedTypes. simpl.
  split_intent_types ty;
    try (split; [reflexivity | indexed_list]).
  - unfold selectComponentsForIntent. simpl.
    destruct ctx as [ctx |]; simpl; [| split; [reflexivity | indexed_list]].
    destruct (Js.truthy (default Js.VUndefined (Js.get "with_preferences" ctx)));
      destruct (Js.truthy (default Js.VUndefined (Js.get "luxury_focus" ctx)));
      simpl; (split; [reflexivity | indexed_list]).
  - destruct (isInherited ty); [exact I |].
    split; [reflexivity | indexed_list].
Qed.

(** X21 on a browse request with both contextual entries: four
    components, the fourth delayed by 0.30000000000000004. *)
Example lavish_browse_delays :
  (fun m => animationDelay <$> manifest_components m)
    <$> mapIntentToComponents stillClock lavishBrowse
  = Some [Some 0%Q; Some (Double.lit (1 # 10));
          Some (Double.lit (2 # 10));
          Some (1351079888211149 # 4503599627370496)%Q].
Proof. vm_compute. reflexivity. Qed.

End RegistryExtras.

(* ===================================================================== *)
(** ** Properties of the intent analyzer *)
(* ===================================================================== *)

Section AnalyzerExtras.
Import Js IntentMapper IntentAnalyzer.

Lemma indicators_throw (ty : string) :
  indicatorsFor ty = None <-> ComponentRegistry.isInherited ty = true.
Proof.
  unfold indicatorsFor. split.
  - destruct (get ty intentIndicators); [discriminate |].
    destruct (ComponentRegistry.isInherited ty); [reflexivity | discriminate].
  - intros Hin. rewrite Hin.
    replace (get ty intentIndicators) with (@None (list string)); [reflexivity |].
    unfold ComponentRegistry.isInherited, ComponentRegistry.inheritedNames in Hin.
    rewrite existsb_exists in Hin. destruct Hin as (name & Hin & Heq).
    apply String.eqb_eq in Heq. subst name. simpl in Hin.
    repeat (destruct Hin as [<- | Hin]; [reflexivity |]). destruct Hin.
Qed.

Lemma rules_range (toLowerCase : string -> string) (analysis : IntentAnalysis)
    (c' : Q) :
  applyConfidenceRules toLowerCase analysis = Some c' ->
  (0 <= confidence (intent analysis) <= 1)%Q ->
  (0 <= c' <= 1)%Q /\
  (isShort toLowerCase (originalMessage (intent analysis)) = true ->
   (c' <= Double.lit (8 # 10))%Q) /\
  (mentionsIndicator toLowerCase analysis = true ->
   (c' <= Double.lit (95 # 100))%Q).
Proof.
  unfold applyConfidenceRules, isShort, mentionsIndicator.
  destruct (indicatorsFor (type (intent analysis))) as [inds |];
    [| discriminate].
  intros [= <-] [H0 H1].
  set (c := confidence (intent analysis)) in *.
  set (d8 := Double.lit (8 # 10)). set (d95 := Double.lit (95 # 100)).
  set (d12 := Double.lit (12 # 10)).
  assert (H8 : (0 <= d8)%Q) by (apply Qle_bool_iff; reflexivity).
  assert (H8' : (d8 <= 1)%Q) by (apply Qle_bool_iff; reflexivity).
  assert (H95 : (0 <= d95 <= 1)%Q)
    by (split; apply Qle_bool_iff; reflexivity).
  assert (H12 : (0 <= d12)%Q) by (apply Qle_bool_iff; reflexivity).
  (* the products at the ends of the ranges, computed *)
  assert (T1 : (Double.mul 1 d8 <= d8)%Q) by (apply Qle_bool_iff; reflexivity).
  assert (T95 : (Double.mul d95 d8 <= d95)%Q)
    by (apply Qle_bool_iff; reflexivity).
  assert (T95' : (Double.mul d95 d8 <= d8)%Q)
    by (apply Qle_bool_iff; reflexivity).
  pose proof (mul_nonneg c d12 H0 H12) as Hb0.
  set (b := Double.mul c d12) in *.
  assert (Hm : (0 <= Qmin b d95 <= d95)%Q).
  { destruct (Q.min_spec b d95) as [[Hlt Hmin] | [Hle Hmin]];
      rewrite Hmin; lra. }
  set (m := Qmin b d95) in *.
  pose proof (mul_nonneg c d8 H0 H8) as Hs0.
  pose proof (mul_le_l c 1 d8 H8 H1) as Hs1.
  pose proof (mul_nonneg m d8 (proj1 Hm) H8) as Hms0.
  pose proof (mul_le_l m d95 d8 H8 (proj2 Hm)) as Hms1.
  destruct (existsb _ inds); destruct (split_length _ <? 3)%nat;
    repeat split; intros; try discriminate; lra.
Qed.

(** X22. [applyConfidenceRules] throws exactly when the intent type is a
    property name inherited from [Object.prototype]. Otherwise a
    confidence within [0, 1] stays within [0, 1]; it is at most the double
    0.8 when the message has fewer than three words, and at most the
    double 0.95 when the message contains an indicator of the intent type
    (so the "boost" lowers a confidence above 0.95). The products are
    rounded as the code rounds them. *)
Theorem applyConfidenceRules_range (toLowerCase : string -> string)
    (analysis : IntentAnalysis) :
  (applyConfidenceRules toLowerCase analysis = None
   <-> ComponentRegistry.isInherited (type (intent analysis)) = true) /\
  (forall c', applyConfidenceRules toLowerCase analysis = Some c' ->
     (0 <= confidence (intent analysis) <= 1)%Q ->
     (0 <= c' <= 1)%Q /\
     (isShort toLowerCase (originalMessage (intent analysis)) = true ->
      (c' <= Double.lit (8 # 10))%Q) /\
     (mentionsIndicator toLowerCase analysis = true ->
      (c' <= Double.lit (95 # 100))%Q)).
Proof.
  split.
  - rewrite <- indicators_throw. unfold applyConfidenceRules.
    destruct (indicatorsFor (type (intent analysis))); split;
      intros; congruence.
  - intros c'. apply rules_range.
Qed.

(** X22 on "show me bags" at confidence 1: the boost caps it at 0.95. *)
Example boost_lowers_certainty :
  applyConfidenceRules sameCase
    {| intent := {| type := "product_browse"; confidence := 1;
                    originalMessage := "show me bags" |};
       entities := []; context := [] |}
  = Some (Double.lit (95 # 100)).
Proof. vm_compute. reflexivity. Qed.

Lemma clamp_range (x : Q) : (0 <= Qmin (Qmax x 0) 1 <= 1)%Q.
Proof.
  destruct (Q.max_spec x 0) as [[Hx Hmax] | [Hx Hmax]];
    destruct (Q.min_spec (Qmax x 0) 1) as [[Hlt Hmin] | [Hle Hmin]];
    rewrite Hmin; lra.
Qed.

Lemma str_or_nonempty (s : option string) (fallback : string) :
  String.eqb fallback EmptyString = false ->
  String.eqb (str_or s fallback) EmptyString = false.
Proof.
  intros Hf. unfold str_or. destruct s as [x |]; [| exact Hf].
  destruct (String.eqb x EmptyString) eqn:E; [exact Hf | exact E].
Qed.

(** X23. Whatever the completion parsed to, within the shape the prompt
    asks for (an intent type that is a string and a confidence that is a
    number, each possibly missing), and also when the request failed, the
    analysis [analyzeIntent] resolves to has a confidence within [0, 1], a
    non-empty intent type and the user's message as its original
    message. *)
Theorem analyzed_confidence_in_range (toLowerCase : string -> string)
    (extractedAt : string) (completion : option RawResult) (message : string) :
  let analysis := analyzeIntent toLowerCase extractedAt completion message in
  (0 <= confidence (intent analysis) <= 1)%Q /\
  String.eqb (type (intent analysis)) EmptyString = false /\
  originalMessage (intent analysis) = message.
Proof.
  simpl. unfold analyzeIntent.
  destruct completion as [result |]; [| simpl; repeat split; lra].
  unfold validateAndEnhanceAnalysis.
  match goal with
  | |- context [applyConfidenceRules toLowerCase ?a] =>
      destruct (applyConfidenceRules toLowerCase a) as [c' |] eqn:Hc;
        [pose proof (rules_range toLowerCase a c' Hc) as Hr |]
  end; simpl; [| repeat split; lra].
  simpl in Hr. destruct (Hr (clamp_range _)) as [Hrange _].
  split; [exact Hrange |]. split; [| reflexivity].
  now apply str_or_nonempty.
Qed.



(** Rounding decides which rule is served: for the two-word request
    "bags please" rated 0.75, the code computes [0.75 * 0.8] as
    0.6000000000000001, which passes the test [confidence > 0.6] of the
    browse rule; the exact product 0.6 would not pass it. *)
Example rounding_passes_the_browse_gate :
  let analysis := analyzeIntent sameCase "2026-01-01T00:00:00.000Z"
                    (Some tersePlea) "bags please" in
  confidence (intent analysis) = (1351079888211149 # 2251799813685248)%Q /\
  above (confidence (intent analysis)) (6 # 10) = true /\
  num_gt ((75 # 100) * (8 # 10)) (6 # 10) = false.
Proof. vm_compute. repeat split. Qed.

End AnalyzerExtras.
